(** * react-model-picker: the [useModelPicker] hook and the [ModelPicker] shell

    A shallow embedding of [src/index.tsx].  The hook keeps five pieces of
    React state ([apiKeyMap], [preferredModelMap], [selectedProvider],
    [apiKey], [modelId]) plus the derived [model], and four effects.  React's
    render/commit cycle is written out: a render evaluates the hook body with
    the current state (and fails when the body throws), then the effects whose
    dependencies changed since the previous commit run in declaration order,
    each one closing over the values of that render and queueing state
    updates; the queued updates give the state of the next render.

    Modelling choices, all taken from the source:
    - the values that [apiKey] and [modelId] can hold are written out as
      [JsValue]: strings and [undefined] ([models[0]] of an empty array),
      and what the inherited members of [Object.prototype] produce;
    - the two dictionaries are plain objects: their own properties are a
      [gmap], and a read [map[key]] of a key that is not an own property
      falls through to [Object.prototype] ([toString], [valueOf],
      [constructor], [__proto__], ...);
    - React's state setter runs a function argument as an updater, and
      runs it when it renders next;
    - [providerMap] is the [Map] filled by the [for] loop, later names
      overwriting earlier ones;
    - the SDK's provider constructor and model accessors are functions that
      either return or throw;
    - the commit loop is the one of the default configuration
      [useLocalStorage: false], where [useStorage] is [useState]; of the
      other configuration only the first render is covered, with the
      content of [localStorage] as a parameter. *)

From stdpp Require Import gmap strings list fin_maps.

Set Default Proof Using "Type".

(** ** JavaScript values and exceptions *)

(** The objects that can reach the state: [Object.prototype] itself, read
    through [__proto__], and what [Object(v)] makes of a primitive. *)
Inductive JsObject :=
  | ObjectPrototype
  | EmptyObject
  | StringObject (s : string)
  | FalseObject.

Inductive JsValue :=
  | JUndefined
  | JString (s : string)
  | JFalse
  | JObject (o : JsObject).

#[global] Instance JsObject_eq_dec : EqDecision JsObject.
Proof. solve_decision. Defined.
#[global] Instance JsValue_eq_dec : EqDecision JsValue.
Proof. solve_decision. Defined.

(** Truthiness: [undefined], [""] and [false] are falsy, objects are
    truthy. *)
Definition truthy (v : JsValue) : bool :=
  match v with
  | JUndefined => false
  | JString s => bool_decide (s ≠ "")
  | JFalse => false
  | JObject _ => true
  end.

(** [l[0]] of an array of strings. *)
Definition js_head (l : list string) : JsValue :=
  match l with
  | [] => JUndefined
  | x :: _ => JString x
  end.

(** [TypeError reading] is "Cannot read properties of undefined (reading
    '...')"; [TypeErrorToObject] is the TypeError of a built-in method
    called on [undefined] ("Cannot convert undefined or null to object");
    [ProviderError] is whatever the SDK throws. *)
Inductive Error :=
  | TypeError (reading : string)
  | TypeErrorToObject
  | ProviderError (msg : string).

Inductive Outcome (A : Type) :=
  | Ok (a : A)
  | Throw (e : Error).
Arguments Ok {A} a.
Arguments Throw {A} e.

(** Sequencing: an exception skips the rest. *)
#[global] Instance outcome_ret : MRet Outcome := λ A a, Ok a.
#[global] Instance outcome_bind : MBind Outcome := λ A B f x,
  match x with
  | Ok a => f a
  | Throw e => Throw e
  end.

(** ** Plain objects as dictionaries *)

(** The function-valued properties of [Object.prototype]. *)
Inductive ProtoFunction :=
  | Constructor
  | ToString
  | ToLocaleString
  | ValueOf
  | HasOwnProperty
  | IsPrototypeOf
  | PropertyIsEnumerable
  | DefineGetter
  | DefineSetter
  | LookupGetter
  | LookupSetter.

(** What a property read gives: a value, or one of the inherited
    functions. *)
Inductive Looked :=
  | Val (v : JsValue)
  | Member (f : ProtoFunction).

(** The properties every plain object inherits. *)
Definition inherited (key : string) : option Looked :=
  if bool_decide (key = "__proto__") then Some (Val (JObject ObjectPrototype))
  else if bool_decide (key = "constructor") then Some (Member Constructor)
  else if bool_decide (key = "toString") then Some (Member ToString)
  else if bool_decide (key = "toLocaleString")
  then Some (Member ToLocaleString)
  else if bool_decide (key = "valueOf") then Some (Member ValueOf)
  else if bool_decide (key = "hasOwnProperty")
  then Some (Member HasOwnProperty)
  else if bool_decide (key = "isPrototypeOf") then Some (Member IsPrototypeOf)
  else if bool_decide (key = "propertyIsEnumerable")
  then Some (Member PropertyIsEnumerable)
  else if bool_decide (key = "__defineGetter__") then Some (Member DefineGetter)
  else if bool_decide (key = "__defineSetter__") then Some (Member DefineSetter)
  else if bool_decide (key = "__lookupGetter__") then Some (Member LookupGetter)
  else if bool_decide (key = "__lookupSetter__") then Some (Member LookupSetter)
  else None.

(** The read [map[key]] of a plain object with own properties [m]: an own
    property shadows the inherited one. *)
Definition read (m : gmap string JsValue) (key : string) : Looked :=
  match m !! key with
  | Some v => Val v
  | None => default (Val JUndefined) (inherited key)
  end.

Definition truthy_read (r : Looked) : bool :=
  match r with
  | Val v => truthy v
  | Member _ => true
  end.

(** [Object(v)]: a primitive is wrapped, an object is returned as it is. *)
Definition to_object (v : JsValue) : JsValue :=
  match v with
  | JUndefined => JObject EmptyObject
  | JString s => JObject (StringObject s)
  | JFalse => JObject FalseObject
  | JObject o => JObject o
  end.

(** The call [f(arg)] of an inherited function with [this] undefined, as
    React calls an updater. *)
Definition call (f : ProtoFunction) (arg : JsValue) : Outcome JsValue :=
  match f with
  | Constructor => Ok (to_object arg)
  | ToString => Ok (JString "[object Undefined]")
  | IsPrototypeOf =>
      match arg with
      | JObject _ => Throw TypeErrorToObject
      | _ => Ok JFalse
      end
  | ToLocaleString | ValueOf | HasOwnProperty | PropertyIsEnumerable
  | DefineGetter | DefineSetter | LookupGetter | LookupSetter =>
      Throw TypeErrorToObject
  end.

(** A name that no plain object inherits. *)
Definition plain (key : string) : Prop := inherited key = None.

Inductive ModelType := Embedding | Language | Image.

(** What a run of the render/effect loop ends in. *)
Inductive Result (St : Type) :=
  | Settled (s : St)
  | Crashed (e : Error)
  | OutOfFuel.
Arguments Settled {St} s.
Arguments Crashed {St} e.
Arguments OutOfFuel {St}.

(** The state a run settled in, if it did. *)
Definition state_of {St} (r : Result St) : option St :=
  match r with
  | Settled s => Some s
  | _ => None
  end.

(** ** React's commit loop, for any component *)

Section Loop.
Context {St : Type}.
(** [commit prev cur]: render [cur], then run the effects whose
    dependencies differ from those of the previous commit [prev]
    ([None] on mount); the result is the state after the queued updates. *)
Variable commit : option St → St → Outcome St.
(** Equality of every value that occurs in a dependency array. *)
Variable same_deps : St → St → bool.

(** Commit until a commit leaves every dependency as it was: the render
    that follows then runs no effect, and repeats a render that succeeded. *)
Fixpoint settle (fuel : nat) (prev : option St) (cur : St) : Result St :=
  match fuel with
  | 0 => OutOfFuel
  | S n =>
      match commit prev cur with
      | Throw e => Crashed e
      | Ok next =>
          if same_deps cur next then Settled next
          else settle n (Some cur) next
      end
  end.

(** A setter called from an event handler: same value, no re-render. *)
Definition after_event (fuel : nat) (s cur : St) : Result St :=
  if same_deps s cur then Settled s else settle fuel (Some s) cur.
End Loop.

(** An effect runs only when one of its dependencies changed. *)
Definition when {St} (b : bool) (eff : St → Outcome St) (pending : St)
  : Outcome St :=
  if b then eff pending else Ok pending.

(** ** The update queue *)

(** The updates queued during a commit, applied in order to the state:
    [queued] is the state they give so far, [failure] the error of an
    updater that throws. *)
Record Pending (St : Type) := {
  queued : St;
  failure : option Error;
}.
Arguments queued {St} p.
Arguments failure {St} p.
Arguments Build_Pending {St} queued failure.

Definition start {St} (s : St) : Pending St :=
  {| queued := s; failure := None |}.

(** A setter called with a value. *)
Definition queue {St} (f : St → St) (p : Pending St) : Pending St :=
  {| queued := f (queued p); failure := failure p |}.

(** A [useState] setter called with what a property read gave: a function
    is an updater and is applied to the pending value of the field. *)
Definition set_state {St} (get : St → JsValue) (set : JsValue → St → St)
    (arg : Looked) (p : Pending St) : Pending St :=
  match arg with
  | Val v => queue (set v) p
  | Member f =>
      match call f (get (queued p)) with
      | Ok v => queue (set v) p
      | Throw e => {| queued := queued p; failure := Some e |}
      end
  end.

(** React applies the queue when it renders next; an updater that throws
    makes that render throw. *)
Definition resolve {St} (p : Pending St) : Outcome St :=
  match failure p with
  | Some e => Throw e
  | None => Ok (queued p)
  end.

(** ** The hook *)

Section Hook.
Context {Model : Type}.

(** The SDK's [Provider]. *)
Record Provider := {
  languageModel : JsValue → Outcome Model;
  textEmbeddingModel : JsValue → Outcome Model;
  imageModel : JsValue → Outcome Model;
}.

(** An element of the [providers] argument; [provider] receives
    [{ apiKey }]. *)
Record ProviderDescriptor := {
  provider : JsValue → Outcome Provider;
  name : string;
  models : list string;
}.

(** A value of [providerMap]. *)
Record ProviderEntry := {
  entry_provider : JsValue → Outcome Provider;
  entry_models : list string;
}.

(** The own properties of the two dictionaries and the four other pieces
    of state. *)
Record State := {
  apiKeyMap : gmap string JsValue;
  preferredModelMap : gmap string JsValue;
  selectedProvider : string;
  apiKey : JsValue;
  modelId : JsValue;
  model : Model;
}.

Variable providers : list ProviderDescriptor.
Variable modelType : ModelType.

Definition providerMap : gmap string ProviderEntry :=
  foldl (λ pm p,
           <[name p := {| entry_provider := provider p;
                          entry_models := models p |}]> pm)
        ∅ providers.

(** The [switch (modelType)] of [getModel] and of the first effect. *)
Definition accessor (p : Provider) (id : JsValue) : Outcome Model :=
  match modelType with
  | Language => languageModel p id
  | Embedding => textEmbeddingModel p id
  | Image => imageModel p id
  end.

Definition accessor_name : string :=
  match modelType with
  | Language => "languageModel"
  | Embedding => "textEmbeddingModel"
  | Image => "imageModel"
  end.

(** [providerMap.get(selectedProvider)?.provider({ apiKey })] *)
Definition construct (sp : string) (k : JsValue) : Outcome (option Provider) :=
  match providerMap !! sp with
  | None => Ok None
  | Some e => p ← entry_provider e k ; Ok (Some p)
  end.

(** [getModel]: no guard, [provider!.languageModel(modelId)]. *)
Definition getModel (sp : string) (k id : JsValue) : Outcome Model :=
  p ← construct sp k ;
  match p with
  | None => Throw (TypeError accessor_name)
  | Some p => accessor p id
  end.

(** State setters called with a value. *)
Definition setModel (v : Model) (s : State) : State :=
  {| apiKeyMap := apiKeyMap s; preferredModelMap := preferredModelMap s;
     selectedProvider := selectedProvider s; apiKey := apiKey s;
     modelId := modelId s; model := v |}.
Definition setModelId (v : JsValue) (s : State) : State :=
  {| apiKeyMap := apiKeyMap s; preferredModelMap := preferredModelMap s;
     selectedProvider := selectedProvider s; apiKey := apiKey s;
     modelId := v; model := model s |}.
Definition setApiKey (v : JsValue) (s : State) : State :=
  {| apiKeyMap := apiKeyMap s; preferredModelMap := preferredModelMap s;
     selectedProvider := selectedProvider s; apiKey := v;
     modelId := modelId s; model := model s |}.
Definition setSelectedProvider (v : string) (s : State) : State :=
  {| apiKeyMap := apiKeyMap s; preferredModelMap := preferredModelMap s;
     selectedProvider := v; apiKey := apiKey s;
     modelId := modelId s; model := model s |}.
Definition setApiKeyMap (f : gmap string JsValue → gmap string JsValue)
    (s : State) : State :=
  {| apiKeyMap := f (apiKeyMap s); preferredModelMap := preferredModelMap s;
     selectedProvider := selectedProvider s; apiKey := apiKey s;
     modelId := modelId s; model := model s |}.
Definition setPreferredModelMap
    (f : gmap string JsValue → gmap string JsValue) (s : State) : State :=
  {| apiKeyMap := apiKeyMap s; preferredModelMap := f (preferredModelMap s);
     selectedProvider := selectedProvider s; apiKey := apiKey s;
     modelId := modelId s; model := model s |}.

(** *** The four effects.  [c] is the render the effect closes over,
    [pending] the queue of updates so far. *)

(** Lines 80-101, dependencies [apiKey, selectedProvider, modelId]. *)
Definition effect_model (c : State) (pending : Pending State)
  : Outcome (Pending State) :=
  p ← construct (selectedProvider c) (apiKey c) ;
  match p with
  | None => Ok pending
  | Some p => v ← accessor p (modelId c) ; Ok (queue (setModel v) pending)
  end.

(** Lines 103-115, dependencies [selectedProvider].  Both setters are the
    ones [useState] returned, so what the dictionary read gives is passed
    to React as it is. *)
Definition effect_restore (c : State) (pending : Pending State)
  : Outcome (Pending State) :=
  pending ←
    (if truthy_read (read (preferredModelMap c) (selectedProvider c))
     then Ok (set_state modelId setModelId
                (read (preferredModelMap c) (selectedProvider c)) pending)
     else match providerMap !! selectedProvider c with
          | None => Throw (TypeError "models")
          | Some e => Ok (queue (setModelId (js_head (entry_models e))) pending)
          end) ;
  if truthy_read (read (apiKeyMap c) (selectedProvider c))
  then Ok (set_state apiKey setApiKey
             (read (apiKeyMap c) (selectedProvider c)) pending)
  else Ok (queue (setApiKey (JString "")) pending).

(** Lines 117-122, dependencies [apiKey]. *)
Definition effect_apiKeyMap (c : State) (pending : Pending State)
  : Outcome (Pending State) :=
  Ok (queue (setApiKeyMap (λ prev, <[selectedProvider c := apiKey c]> prev))
        pending).

(** Lines 124-129, dependencies [modelId]. *)
Definition effect_preferredModelMap (c : State) (pending : Pending State)
  : Outcome (Pending State) :=
  Ok (queue (setPreferredModelMap
               (λ prev, <[selectedProvider c := modelId c]> prev)) pending).

(** Did a dependency change since the previous commit?  On mount every
    effect runs. *)
Definition changed {A} `{EqDecision A} (f : State → A)
    (prev : option State) (cur : State) : bool :=
  match prev with
  | None => true
  | Some p => bool_decide (f p ≠ f cur)
  end.

Definition hook_effects (prev : option State) (cur : State)
    (pending : Pending State) : Outcome (Pending State) :=
  pending ← when (changed apiKey prev cur || changed selectedProvider prev cur
                  || changed modelId prev cur)
              (effect_model cur) pending ;
  pending ← when (changed selectedProvider prev cur)
              (effect_restore cur) pending ;
  pending ← when (changed apiKey prev cur) (effect_apiKeyMap cur) pending ;
  when (changed modelId prev cur) (effect_preferredModelMap cur) pending.

(** What the hook returns. *)
Record View := {
  view_apiKey : JsValue;
  view_modelId : JsValue;
  view_selectedProvider : string;
  view_modelIdList : list string;
  view_model : Model;
}.

(** [providerMap.get(selectedProvider)?.models || []] *)
Definition modelIdList (sp : string) : list string :=
  match providerMap !! sp with
  | Some e => entry_models e
  | None => []
  end.

(** One evaluation of the hook body after the first: line 78 calls
    [getModel()] on every render, its value is used on the first only. *)
Definition render (s : State) : Outcome View :=
  _ ← getModel (selectedProvider s) (apiKey s) (modelId s) ;
  Ok {| view_apiKey := apiKey s; view_modelId := modelId s;
        view_selectedProvider := selectedProvider s;
        view_modelIdList := modelIdList (selectedProvider s);
        view_model := model s |}.

(** What [localStorage] holds under the four keys of lines 28-34 and
    69-77 when the hook mounts, parsed. *)
Record LocalStorage := {
  stored_apiKeyMap : option (gmap string JsValue);
  stored_preferredModelMap : option (gmap string JsValue);
  stored_provider : option string;
  stored_modelId : option JsValue;
}.

(** [useStorage] (lines 19-26) on the first render.  Without
    [useLocalStorage] (the default of line 15, [None] here) it is
    [useState(initialValue)]; with it, the value saved under the key
    replaces [initialValue]. *)
Definition useStorage {T} (storage : option LocalStorage)
    (saved : LocalStorage → option T) (initialValue : T) : T :=
  match storage with
  | Some st => default initialValue (saved st)
  | None => initialValue
  end.

(** The state created by the first render: the two dictionaries,
    [providers[0].name], [""], [providers[0].models[0]], [getModel()]. *)
Definition initial_state_from (storage : option LocalStorage)
  : Outcome State :=
  match providers with
  | [] => Throw (TypeError "name")
  | p0 :: _ =>
      let km := useStorage storage stored_apiKeyMap ∅ in
      let pm := useStorage storage stored_preferredModelMap ∅ in
      let sp := useStorage storage stored_provider (name p0) in
      let id := useStorage storage stored_modelId (js_head (models p0)) in
      v ← getModel sp (JString "") id ;
      Ok {| apiKeyMap := km; preferredModelMap := pm;
            selectedProvider := sp; apiKey := JString "";
            modelId := id; model := v |}
  end.

(** The default configuration, [useLocalStorage: false]: all six pieces
    are React state.  The commit loop below is the one of this
    configuration. *)
Definition initial_state : Outcome State := initial_state_from None.

(** One commit: the render, the effects, and the queue they leave, which
    the next render applies. *)
Definition hook_commit (prev : option State) (cur : State) : Outcome State :=
  _ ← render cur ;
  pending ← hook_effects prev cur (start cur) ;
  resolve pending.

Definition hook_same_deps (a b : State) : bool :=
  bool_decide (selectedProvider a = selectedProvider b)
  && bool_decide (apiKey a = apiKey b)
  && bool_decide (modelId a = modelId b).

Definition mount (fuel : nat) : Result State :=
  match initial_state with
  | Throw e => Crashed e
  | Ok s0 => settle hook_commit hook_same_deps fuel None s0
  end.

(** The three setters the hook returns, as events; each takes a string. *)
Inductive Event :=
  | SetApiKey (value : string)
  | SetModelId (value : string)
  | SetSelectedProvider (value : string).

Definition apply_event (ev : Event) (s : State) : State :=
  match ev with
  | SetApiKey v => setApiKey (JString v) s
  | SetModelId v => setModelId (JString v) s
  | SetSelectedProvider v => setSelectedProvider v s
  end.

Definition dispatch (fuel : nat) (s : State) (ev : Event) : Result State :=
  after_event hook_commit hook_same_deps fuel s (apply_event ev s).

(** Events one after the other, each processed to completion. *)
Fixpoint dispatch_all (fuel : nat) (s : State) (evs : list Event)
  : Result State :=
  match evs with
  | [] => Settled s
  | ev :: evs =>
      match dispatch fuel s ev with
      | Settled s' => dispatch_all fuel s' evs
      | r => r
      end
  end.

Definition run (fuel : nat) (evs : list Event) : Result State :=
  match mount fuel with
  | Settled s => dispatch_all fuel s evs
  | r => r
  end.

(** States the hook can be in between two events. *)
Inductive reachable : State → Prop :=
  | reach_mount fuel s :
      mount fuel = Settled s → reachable s
  | reach_event fuel s ev s' :
      reachable s → dispatch fuel s ev = Settled s' → reachable s'.

(** The SDK side condition of most statements: no constructor and no
    accessor of a listed provider throws. *)
Definition never_throws : Prop :=
  ∀ n e k id, providerMap !! n = Some e →
    ∃ p v, entry_provider e k = Ok p ∧ accessor p id = Ok v.

(** The name side conditions of the statements about the restore effect.
    No listed provider is named like a property of [Object.prototype]: *)
Definition plain_names : Prop :=
  ∀ n, is_Some (providerMap !! n) → plain n.

(** ... or, for one read: the dictionary has an own property under the
    name, or the name is plain.  Either way the read sees own properties
    only. *)
Definition own_or_plain (m : gmap string JsValue) (key : string) : Prop :=
  is_Some (m !! key) ∨ plain key.

Definition safe_target (s : State) (P : string) : Prop :=
  own_or_plain (apiKeyMap s) P ∧ own_or_plain (preferredModelMap s) P.

(** What one half of the restore effect leaves in its field: the read of
    the dictionary [m] under [key], passed to the state setter of a field
    that holds [prev], with [fallback] in the else branch. *)
Definition restored (m : gmap string JsValue) (key : string)
    (fallback prev : JsValue) : Outcome JsValue :=
  match read m key with
  | Val v => Ok (if truthy v then v else fallback)
  | Member f => call f prev
  end.

(** The same for a read that sees own properties only: the own property
    when it is truthy. *)
Definition restore_id (pm : gmap string JsValue) (P : string) : JsValue :=
  if truthy (default JUndefined (pm !! P)) then default JUndefined (pm !! P)
  else js_head (modelIdList P).

Definition restore_key (km : gmap string JsValue) (P : string) : JsValue :=
  if truthy (default JUndefined (km !! P)) then default JUndefined (km !! P)
  else JString "".

(** The state after one commit whose render returned [v] and whose
    restore effect, if it ran, left [k] and [id]. *)
Definition commit_to (prev : option State) (cur : State) (v : Model)
    (k id : JsValue) : State :=
  let p1 :=
    if changed apiKey prev cur || changed selectedProvider prev cur
       || changed modelId prev cur
    then setModel v cur else cur in
  let p2 :=
    if changed selectedProvider prev cur
    then setApiKey k (setModelId id p1)
    else p1 in
  let p3 :=
    if changed apiKey prev cur
    then setApiKeyMap (λ m, <[selectedProvider cur := apiKey cur]> m) p2
    else p2 in
  if changed modelId prev cur
  then setPreferredModelMap
         (λ m, <[selectedProvider cur := modelId cur]> m) p3
  else p3.

(** ... with the values of a restore effect that read own properties. *)
Definition commit_result (prev : option State) (cur : State) (v : Model)
  : State :=
  commit_to prev cur v
    (restore_key (apiKeyMap cur) (selectedProvider cur))
    (restore_id (preferredModelMap cur) (selectedProvider cur)).

(** The state in which a switch from [s] to [P] settles when the restore
    effect leaves [k] and [id], [h] being the handle built last: the
    restored values, written back to the maps by the third and fourth
    effect when they differ from the values left by the previous
    provider. *)
Definition switched_to (s : State) (P : string) (k id : JsValue) (h : Model)
  : State :=
  {| apiKeyMap :=
       if decide (k = apiKey s) then apiKeyMap s
       else <[P := k]> (apiKeyMap s);
     preferredModelMap :=
       if decide (id = modelId s) then preferredModelMap s
       else <[P := id]> (preferredModelMap s);
     selectedProvider := P; apiKey := k; modelId := id; model := h |}.

Definition switched (s : State) (P : string) (h : Model) : State :=
  switched_to s P (restore_key (apiKeyMap s) P)
    (restore_id (preferredModelMap s) P) h.

(** The values the setters of the hook are typed for: a string, or the
    [undefined] of a missing [models[0]]. *)
Definition is_string (v : JsValue) : Prop := ∃ s, v = JString s.

Definition expected (v : JsValue) : Prop := v = JUndefined ∨ is_string v.

(** The restore effect gives [v] whatever the field held before. *)
Definition restores (m : gmap string JsValue) (key : string)
    (fallback v : JsValue) : Prop :=
  ∀ prev, restored m key fallback prev = Ok v.

(** Between events the maps agree with the current fields: a field of an
    expected value is the own property stored under the selected name, or
    the value that the restore effect computes for that name. *)
Definition remembered (m : gmap string JsValue) (key : string)
    (fallback v : JsValue) : Prop :=
  expected v → m !! key = Some v ∨ restores m key fallback v.

Definition key_remembered (s : State) : Prop :=
  remembered (apiKeyMap s) (selectedProvider s) (JString "") (apiKey s).

Definition id_remembered (s : State) : Prop :=
  remembered (preferredModelMap s) (selectedProvider s)
    (js_head (modelIdList (selectedProvider s))) (modelId s).

(** The same, in the middle of the commit loop: a field that did not
    change since the previous commit is still remembered. *)
Definition loop_inv (prev : option State) (cur : State) : Prop :=
  match prev with
  | None => True
  | Some p =>
      selectedProvider p = selectedProvider cur →
      (apiKey p = apiKey cur → key_remembered cur)
      ∧ (modelId p = modelId cur → id_remembered cur)
  end.

(** With plain names only, every field and every stored value is of an
    expected type. *)
Definition well_typed (s : State) : Prop :=
  is_string (apiKey s)
  ∧ map_Forall (λ _ v, is_string v) (apiKeyMap s)
  ∧ expected (modelId s)
  ∧ map_Forall (λ _ v, expected v) (preferredModelMap s).

(** [setApiKey] and [setModelId], as opposed to a switch. *)
Definition is_edit (ev : Event) : Prop :=
  match ev with
  | SetSelectedProvider _ => False
  | _ => True
  end.
End Hook.

Arguments Provider : clear implicits.
Arguments ProviderDescriptor : clear implicits.
Arguments ProviderEntry : clear implicits.
Arguments State : clear implicits.
Arguments View : clear implicits.

(** ** The default shell [ModelPicker] *)

Section Picker.
Context {Model : Type}.
Variable providers : list (ProviderDescriptor Model).
Variable modelType : ModelType.

(** The hook's state and the toggle of line 176. *)
Record PickerState := {
  hook : State Model;
  useCustomModelInput : bool;
}.

Definition setUseCustomModelInput (b : bool) (s : PickerState)
  : PickerState :=
  {| hook := hook s; useCustomModelInput := b |}.

Definition in_hook (f : State Model → State Model) (s : PickerState)
  : PickerState :=
  {| hook := f (hook s); useCustomModelInput := useCustomModelInput s |}.

(** [modelIdList.includes(modelId)] *)
Definition includes (l : list string) (v : JsValue) : bool :=
  match v with
  | JString x => bool_decide (x ∈ l)
  | _ => false
  end.

(** Lines 178-181, dependencies [modelId]. *)
Definition effect_custom (c : PickerState) (pending : Pending PickerState)
  : Outcome (Pending PickerState) :=
  if negb (includes (modelIdList providers (selectedProvider (hook c)))
             (modelId (hook c)))
  then Ok (queue (setUseCustomModelInput true) pending)
  else Ok (queue (setUseCustomModelInput false) pending).

(** Lines 183-187, dependencies [useCustomModelInput].  The [setModelId]
    of the shell is the hook's wrapper, called with [modelIdList[0]]. *)
Definition effect_snap (c : PickerState) (pending : Pending PickerState)
  : Outcome (Pending PickerState) :=
  if negb (useCustomModelInput c)
  then Ok (queue (in_hook (setModelId
                             (js_head (modelIdList providers
                                         (selectedProvider (hook c))))))
             pending)
  else Ok pending.

(** Did the toggle change since the previous commit? *)
Definition changed_flag (prev : option PickerState) (cur : PickerState)
  : bool :=
  match prev with
  | None => true
  | Some p => bool_decide (useCustomModelInput p ≠ useCustomModelInput cur)
  end.

(** The hook's part of the shell's queue, and back. *)
Definition hook_queue (p : Pending PickerState) : Pending (State Model) :=
  {| queued := hook (queued p); failure := failure p |}.

Definition with_hook_queue (h : Pending (State Model))
    (p : Pending PickerState) : Pending PickerState :=
  {| queued := in_hook (λ _, queued h) (queued p); failure := failure h |}.

(** The hook's effects come first, they are declared inside the call of
    line 173.  The last effect (lines 189-193) only calls the caller's
    [onModelChange] and touches no state of the picker. *)
Definition picker_effects (prev : option PickerState) (cur : PickerState)
    (pending : Pending PickerState) : Outcome (Pending PickerState) :=
  h ← hook_effects providers modelType (hook <$> prev) (hook cur)
        (hook_queue pending) ;
  pending ← Ok (with_hook_queue h pending) ;
  pending ← when (changed modelId (hook <$> prev) (hook cur))
              (effect_custom cur) pending ;
  when (changed_flag prev cur) (effect_snap cur) pending.

Definition picker_commit (prev : option PickerState) (cur : PickerState)
  : Outcome PickerState :=
  _ ← render providers modelType (hook cur) ;
  pending ← picker_effects prev cur (start cur) ;
  resolve pending.

Definition picker_same_deps (a b : PickerState) : bool :=
  hook_same_deps (hook a) (hook b)
  && bool_decide (useCustomModelInput a = useCustomModelInput b).

Definition picker_mount (fuel : nat) : Result PickerState :=
  match initial_state providers modelType with
  | Throw e => Crashed e
  | Ok s0 =>
      settle picker_commit picker_same_deps fuel None
        {| hook := s0; useCustomModelInput := false |}
  end.

(** The shell forwards every edit to the hook's setter; a click on the
    toggle negates the flag (line 275). *)
Inductive PickerEvent :=
  | Edit (ev : Event)
  | Toggle.

Definition picker_apply (ev : PickerEvent) (s : PickerState) : PickerState :=
  match ev with
  | Edit ev => in_hook (apply_event ev) s
  | Toggle => setUseCustomModelInput (negb (useCustomModelInput s)) s
  end.

Definition picker_dispatch (fuel : nat) (s : PickerState) (ev : PickerEvent)
  : Result PickerState :=
  after_event picker_commit picker_same_deps fuel s (picker_apply ev s).

Fixpoint picker_dispatch_all (fuel : nat) (s : PickerState)
    (evs : list PickerEvent) : Result PickerState :=
  match evs with
  | [] => Settled s
  | ev :: evs =>
      match picker_dispatch fuel s ev with
      | Settled s' => picker_dispatch_all fuel s' evs
      | r => r
      end
  end.

Definition picker_run (fuel : nat) (evs : list PickerEvent)
  : Result PickerState :=
  match picker_mount fuel with
  | Settled s => picker_dispatch_all fuel s evs
  | r => r
  end.

(** The state after one commit of the shell whose render returned [v]
    and whose restore effect, if it ran, ran for a plain name. *)
Definition picker_result (prev : option PickerState) (cur : PickerState)
    (v : Model) : PickerState :=
  let p1 :=
    {| hook := commit_result providers (hook <$> prev) (hook cur) v;
       useCustomModelInput := useCustomModelInput cur |} in
  let p2 :=
    if changed modelId (hook <$> prev) (hook cur)
    then setUseCustomModelInput
           (negb (includes (modelIdList providers
                              (selectedProvider (hook cur)))
                    (modelId (hook cur)))) p1
    else p1 in
  if changed_flag prev cur && negb (useCustomModelInput cur)
  then in_hook (setModelId
                  (js_head (modelIdList providers
                              (selectedProvider (hook cur))))) p2
  else p2.
End Picker.

Arguments PickerState : clear implicits.

(** ** A recording SDK for examples: the model is the triple it was built
    from. *)
Module Demo.
Definition Handle : Type := string * JsValue * JsValue.

Definition sdk (vendor : string) (k : JsValue) : Outcome (Provider Handle) :=
  Ok {| languageModel := λ id, Ok (vendor, k, id);
        textEmbeddingModel := λ id, Ok (vendor, k, id);
        imageModel := λ id, Ok (vendor, k, id) |}.

Definition desc (n : string) (ms : list string) : ProviderDescriptor Handle :=
  {| provider := sdk n; name := n; models := ms |}.

Definition two : list (ProviderDescriptor Handle) :=
  [desc "OpenAI" ["gpt-4o"; "o4-mini"]; desc "Google" ["gemini-2.0-flash"]].

(** The hook over [two] after its mount effects. *)
Definition mounted : State Handle :=
  {| apiKeyMap := {[ "OpenAI" := JString "" ]};
     preferredModelMap := {[ "OpenAI" := JString "gpt-4o" ]};
     selectedProvider := "OpenAI"; apiKey := JString "";
     modelId := JString "gpt-4o";
     model := ("OpenAI", JString "", JString "gpt-4o") |}.

(** An SDK that rejects one credential. *)
Definition picky (vendor : string) (k : JsValue) : Outcome (Provider Handle) :=
  if bool_decide (k = JString "bad")
  then Throw (ProviderError "invalid api key")
  else sdk vendor k.

Definition picky_openai : list (ProviderDescriptor Handle) :=
  [{| provider := picky "OpenAI"; name := "OpenAI"; models := ["gpt-4o"] |}].

(** Two providers with one known model each. *)
Definition ab : list (ProviderDescriptor Handle) :=
  [desc "A" ["a"]; desc "B" ["b"]].

(** The hook over [picky_openai] after its mount effects. *)
Definition picky_mounted : State Handle :=
  {| apiKeyMap := {[ "OpenAI" := JString "" ]};
     preferredModelMap := {[ "OpenAI" := JString "gpt-4o" ]};
     selectedProvider := "OpenAI"; apiKey := JString "";
     modelId := JString "gpt-4o";
     model := ("OpenAI", JString "", JString "gpt-4o") |}.

(** A provider without known models. *)
Definition bare : list (ProviderDescriptor Handle) := [desc "Local" []].


(** Providers named like properties of [Object.prototype]. *)
Definition with_toString : list (ProviderDescriptor Handle) :=
  [desc "OpenAI" ["gpt-4o"]; desc "toString" ["t-1"]].

Definition with_valueOf : list (ProviderDescriptor Handle) :=
  [desc "OpenAI" ["gpt-4o"]; desc "valueOf" ["v-1"]].

(** The shell over [two] after its mount effects. *)
Definition picker_mounted : PickerState Handle :=
  {| hook := mounted; useCustomModelInput := false |}.

(** OpenAI selected, with a credential entered. *)
Definition with_key : State Handle :=
  {| apiKeyMap := {[ "OpenAI" := JString "sk-1" ]};
     preferredModelMap := {[ "OpenAI" := JString "gpt-4o" ]};
     selectedProvider := "OpenAI"; apiKey := JString "sk-1";
     modelId := JString "gpt-4o";
     model := ("OpenAI", JString "sk-1", JString "gpt-4o") |}.

(** ... and after a first visit to Google. *)
Definition at_google : State Handle :=
  {| apiKeyMap := {[ "OpenAI" := JString "" ]};
     preferredModelMap :=
       {[ "OpenAI" := JString "gpt-4o";
          "Google" := JString "gemini-2.0-flash" ]};
     selectedProvider := "Google"; apiKey := JString "";
     modelId := JString "gemini-2.0-flash";
     model := ("Google", JString "", JString "gemini-2.0-flash") |}.

(** Two descriptors under one name. *)
Definition twins : list (ProviderDescriptor Handle) :=
  [desc "A" ["a"]; desc "A" ["z"]].

(** The shell over [two] in custom mode, with a custom id typed. *)
Definition picker_custom : PickerState Handle :=
  {| hook := {| apiKeyMap := {[ "OpenAI" := JString "" ]};
                preferredModelMap := {[ "OpenAI" := JString "my-model" ]};
                selectedProvider := "OpenAI"; apiKey := JString "";
                modelId := JString "my-model";
                model := ("OpenAI", JString "", JString "my-model") |};
     useCustomModelInput := true |}.
End Demo.

(** ** Notions used by the further properties *)

Section Notions.
Context {Model : Type}.
Variable providers : list (ProviderDescriptor Model).
Variable modelType : ModelType.

(** The value the loop of lines 45-50 stores for a descriptor. *)
Definition entry_of (p : ProviderDescriptor Model) : ProviderEntry Model :=
  {| entry_provider := provider p; entry_models := models p |}.

(** The handle belongs to the current fields. *)
Definition handle_current (s : State Model) : Prop :=
  getModel providers modelType (selectedProvider s) (apiKey s) (modelId s)
  = Ok (model s).

(** The field an event sets holds the event's value. *)
Definition sets (ev : Event) (s : State Model) : Prop :=
  match ev with
  | SetApiKey v => apiKey s = JString v
  | SetModelId x => modelId s = JString x
  | SetSelectedProvider P => selectedProvider s = P
  end.

(** A switch names a listed provider; edits are unconstrained. *)
Definition known_target (ev : Event) : Prop :=
  match ev with
  | SetSelectedProvider P => is_Some (providerMap providers !! P)
  | _ => True
  end.

Definition picker_known_target (ev : PickerEvent) : Prop :=
  match ev with
  | Edit ev => known_target ev
  | Toggle => True
  end.


(** [c] comes from [c0] by commits: same provider, other providers'
    entries untouched, no key lost. *)
Definition follows (c0 c : State Model) : Prop :=
  selectedProvider c = selectedProvider c0
  ∧ ∀ B, (B ≠ selectedProvider c0 →
          apiKeyMap c !! B = apiKeyMap c0 !! B
          ∧ preferredModelMap c !! B = preferredModelMap c0 !! B)
       ∧ (is_Some (apiKeyMap c0 !! B) → is_Some (apiKeyMap c !! B))
       ∧ (is_Some (preferredModelMap c0 !! B) →
          is_Some (preferredModelMap c !! B)).

(** The loop keeps the handle current: where no dependency changed since
    the previous commit, the handle is the one of the fields. *)
Definition handle_inv (prev : option (State Model)) (cur : State Model)
  : Prop :=
  match prev with
  | None => True
  | Some p =>
      hook_same_deps p cur = true → handle_current cur
  end.

(** The field an event sets is not touched by the commits that follow:
    the restore effect runs only when the provider changed, and then it
    leaves the provider alone. *)
Definition keeps (ev : Event) (prev : option (State Model))
    (cur : State Model) : Prop :=
  sets ev cur
  ∧ match ev with
    | SetSelectedProvider _ => True
    | _ => changed selectedProvider prev cur = false
    end.
End Notions.

(** * Properties *)

(** A dependency that has the same value in both renders did not change. *)
Ltac unchanged :=
  rewrite !(bool_decide_eq_false_2 (_ ≠ _)) by (intros Hn; by apply Hn).

Section LoopFacts.
Context {St : Type}.
Variable commit : option St → St → Outcome St.
Variable same_deps : St → St → bool.

Lemma settle_S n prev cur :
  settle commit same_deps (S n) prev cur
  = match commit prev cur with
    | Throw e => Crashed e
    | Ok next =>
        if same_deps cur next then Settled next
        else settle commit same_deps n (Some cur) next
    end.
Proof. done. Qed.

(** What every commit of the loop preserves holds where the loop
    settles. *)
Lemma settle_invariant (I : option St → St → Prop) (Q : St → Prop) :
  (∀ prev cur next, I prev cur → commit prev cur = Ok next →
     (same_deps cur next = true → Q next) ∧ I (Some cur) next) →
  ∀ fuel prev cur s',
    I prev cur → settle commit same_deps fuel prev cur = Settled s' → Q s'.
Proof.
  intros Hstep fuel.
  induction fuel as [|n IH]; intros prev cur s' HI Hs; [done|].
  rewrite settle_S in Hs.
  destruct (commit prev cur) as [next|err] eqn:Hc; [|done].
  destruct (Hstep _ _ _ HI Hc) as [HQ HI'].
  destruct (same_deps cur next) eqn:Hd.
  - injection Hs as <-. by apply HQ.
  - by apply (IH (Some cur) next).
Qed.
End LoopFacts.

Section ReadFacts.
Implicit Types (m : gmap string JsValue) (key : string).

Lemma read_own_or_plain m key :
  own_or_plain m key → read m key = Val (default JUndefined (m !! key)).
Proof.
  unfold read, own_or_plain, plain. intros [[v Hv]|Hp].
  - by rewrite Hv.
  - rewrite Hp. by destruct (m !! key).
Qed.

Lemma restored_own_or_plain m key fallback prev :
  own_or_plain m key →
  restored m key fallback prev
  = Ok (if truthy (default JUndefined (m !! key))
        then default JUndefined (m !! key) else fallback).
Proof. intros H. unfold restored. by rewrite (read_own_or_plain _ _ H). Qed.

Lemma restored_ext m1 m2 key fallback prev :
  m1 !! key = m2 !! key →
  restored m1 key fallback prev = restored m2 key fallback prev.
Proof. intros H. unfold restored, read. by rewrite H. Qed.

(** An expected value that the restore effect leaves as it is does not
    come from an inherited function that looks at the previous value. *)
Lemma restored_fixed m key fallback v :
  expected v → restored m key fallback v = Ok v → restores m key fallback v.
Proof.
  intros Hv Hr prev. revert Hr. unfold restored.
  destruct (read m key) as [w|f]; [done|].
  destruct Hv as [->|[s ->]]; destruct f; simpl; try done.
Qed.

Lemma restored_own_string m key k prev :
  m !! key = Some (JString k) →
  restored m key (JString "") prev = Ok (JString k).
Proof.
  intros H. unfold restored, read. rewrite H. simpl.
  case_bool_decide as Hk; [done|]. by rewrite Hk.
Qed.

Lemma restored_own_truthy m key fallback v prev :
  m !! key = Some v → truthy v = true →
  restored m key fallback prev = Ok v.
Proof. intros H Ht. unfold restored, read. by rewrite H, Ht. Qed.

(** A remembered credential comes back, and so does a remembered model
    id that is a non-empty string. *)
Lemma remembered_restores_key m key k :
  remembered m key (JString "") (JString k) →
  restores m key (JString "") (JString k).
Proof.
  intros Hr. destruct Hr as [Hr|Hr]; [right; by exists k| |done].
  intros prev. by apply restored_own_string.
Qed.

Lemma remembered_restores_id m key fallback x :
  x ≠ "" →
  remembered m key fallback (JString x) →
  restores m key fallback (JString x).
Proof.
  intros Hx Hr. destruct Hr as [Hr|Hr]; [right; by exists x| |done].
  intros prev. apply restored_own_truthy; [done|].
  simpl. by rewrite bool_decide_eq_true_2.
Qed.
End ReadFacts.

Section HookFacts.
Context {Model : Type}.
Variable providers : list (ProviderDescriptor Model).
Variable modelType : ModelType.

Abbreviation pmap := (providerMap providers).
Abbreviation getModel' := (getModel providers modelType).
Abbreviation first_id sp := (js_head (modelIdList providers sp)).

Lemma getModel_unknown sp k id :
  pmap !! sp = None →
  getModel' sp k id = Throw (TypeError (accessor_name modelType)).
Proof. intros H. unfold getModel, construct. by rewrite H. Qed.

Lemma getModel_Ok_known sp k id v :
  getModel' sp k id = Ok v → is_Some (pmap !! sp).
Proof.
  unfold getModel, construct. destruct (pmap !! sp); [eauto | done].
Qed.

Lemma getModel_known sp e k id :
  never_throws providers modelType → pmap !! sp = Some e →
  ∃ v, getModel' sp k id = Ok v.
Proof.
  intros Hnt He. destruct (Hnt sp e k id He) as (p & v & Hp & Hv).
  exists v. unfold getModel, construct. rewrite He. simpl.
  rewrite Hp. simpl. done.
Qed.

(** The first effect repeats the computation of [getModel]. *)
Lemma effect_model_getModel c pending v :
  getModel' (selectedProvider c) (apiKey c) (modelId c) = Ok v →
  effect_model providers modelType c pending
  = Ok (queue (setModel v) pending).
Proof.
  unfold getModel, effect_model.
  destruct (construct providers (selectedProvider c) (apiKey c))
    as [[p|]|]; simpl; try done.
  intros ->. done.
Qed.

(** The restore effect for a listed name never throws; what it queues is
    what [restored] computes, and an updater that throws is left for the
    next render. *)
Lemma effect_restore_known c q :
  is_Some (pmap !! selectedProvider c) →
  ∃ pending',
    effect_restore providers c {| queued := q; failure := None |}
    = Ok pending'
    ∧ match restored (apiKeyMap c) (selectedProvider c) (JString "")
              (apiKey q),
            restored (preferredModelMap c) (selectedProvider c)
              (first_id (selectedProvider c)) (modelId q) with
      | Ok k, Ok x =>
          pending' = {| queued := setApiKey k (setModelId x q);
                        failure := None |}
      | Throw e, _ | Ok _, Throw e => failure pending' = Some e
      end.
Proof.
  intros [e He]. unfold effect_restore, restored, modelIdList. rewrite He.
  destruct (read (preferredModelMap c) (selectedProvider c)) as [w|f];
    destruct (read (apiKeyMap c) (selectedProvider c)) as [w'|f']; simpl.
  - destruct (truthy w), (truthy w'); simpl; eexists; split; done.
  - destruct (truthy w); simpl; destruct (call f' (apiKey q)); simpl;
      eexists; split; done.
  - destruct (call f (modelId q)); simpl; destruct (truthy w'); simpl;
      eexists; split; done.
  - destruct (call f (modelId q)); simpl; destruct (call f' (apiKey q));
      simpl; eexists; split; done.
Qed.

(** One commit, in closed form. *)
Lemma hook_commit_eq prev cur :
  hook_commit providers modelType prev cur
  = (v ← getModel' (selectedProvider cur) (apiKey cur) (modelId cur) ;
     if changed selectedProvider prev cur
     then k ← restored (apiKeyMap cur) (selectedProvider cur) (JString "")
                (apiKey cur) ;
          x ← restored (preferredModelMap cur) (selectedProvider cur)
                (first_id (selectedProvider cur)) (modelId cur) ;
          Ok (commit_to prev cur v k x)
     else Ok (commit_to prev cur v (apiKey cur) (modelId cur))).
Proof.
  unfold hook_commit, render.
  destruct (getModel' (selectedProvider cur) (apiKey cur) (modelId cur))
    as [v|err] eqn:Hv; simpl; [|done].
  pose proof (getModel_Ok_known _ _ _ _ Hv) as Hk.
  unfold hook_effects, when, commit_to, effect_apiKeyMap,
    effect_preferredModelMap.
  destruct (changed selectedProvider prev cur) eqn:Hsp.
  - rewrite orb_true_r. simpl.
    rewrite (effect_model_getModel _ _ _ Hv). simpl.
    destruct (effect_restore_known cur (setModel v cur) Hk)
      as (pending' & Hr & Hp).
    unfold queue, start. simpl. rewrite Hr. simpl in *.
    destruct (restored (apiKeyMap cur) _ _ _) as [k|e1];
      destruct (restored (preferredModelMap cur) _ _ _) as [x|e2];
      simpl; [subst pending'|destruct pending' as [q' fl]; simpl in Hp;
                              subst fl..];
      destruct (changed apiKey prev cur), (changed modelId prev cur); done.
  - rewrite orb_false_r.
    destruct (changed apiKey prev cur), (changed modelId prev cur); simpl;
      rewrite ?(effect_model_getModel _ _ _ Hv); done.
Qed.

Lemma hook_commit_throw prev cur err :
  getModel' (selectedProvider cur) (apiKey cur) (modelId cur) = Throw err →
  hook_commit providers modelType prev cur = Throw err.
Proof. intros H. rewrite hook_commit_eq. by rewrite H. Qed.

(** A commit whose restore effect leaves [k] and [x]. *)
Lemma hook_commit_to prev cur v k x :
  getModel' (selectedProvider cur) (apiKey cur) (modelId cur) = Ok v →
  restored (apiKeyMap cur) (selectedProvider cur) (JString "") (apiKey cur)
  = Ok k →
  restored (preferredModelMap cur) (selectedProvider cur)
    (first_id (selectedProvider cur)) (modelId cur) = Ok x →
  hook_commit providers modelType prev cur = Ok (commit_to prev cur v k x).
Proof.
  intros Hv Hk Hx. rewrite hook_commit_eq, Hv, Hk, Hx. simpl.
  destruct (changed selectedProvider prev cur) eqn:Hsp; [done|].
  unfold commit_to. by rewrite Hsp.
Qed.

(** A commit whose restore effect, if it runs, reads own properties. *)
Lemma hook_commit_ok prev cur v :
  getModel' (selectedProvider cur) (apiKey cur) (modelId cur) = Ok v →
  (changed selectedProvider prev cur = true →
   safe_target cur (selectedProvider cur)) →
  hook_commit providers modelType prev cur
  = Ok (commit_result providers prev cur v).
Proof.
  intros Hv Hs. rewrite hook_commit_eq, Hv. simpl. unfold commit_result.
  destruct (changed selectedProvider prev cur) eqn:Hsp.
  - destruct (Hs eq_refl) as [Hkm Hpm].
    by rewrite !restored_own_or_plain.
  - unfold commit_to. by rewrite Hsp.
Qed.

(** A commit after which the selected provider is the one of the
    previous commit: the restore effect does not run. *)
Lemma hook_commit_stay p cur v :
  selectedProvider p = selectedProvider cur →
  getModel' (selectedProvider cur) (apiKey cur) (modelId cur) = Ok v →
  hook_commit providers modelType (Some p) cur
  = Ok (commit_result providers (Some p) cur v).
Proof.
  intros Hsp Hv. apply hook_commit_ok; [done|].
  unfold changed. by rewrite bool_decide_eq_false_2 by (intros Hn; by apply Hn).
Qed.

(** What a commit that succeeds did. *)
Lemma hook_commit_Ok_inv prev cur next :
  hook_commit providers modelType prev cur = Ok next →
  ∃ v k x,
    getModel' (selectedProvider cur) (apiKey cur) (modelId cur) = Ok v
    ∧ next = commit_to prev cur v k x
    ∧ (if changed selectedProvider prev cur
       then restored (apiKeyMap cur) (selectedProvider cur) (JString "")
              (apiKey cur) = Ok k
            ∧ restored (preferredModelMap cur) (selectedProvider cur)
                (first_id (selectedProvider cur)) (modelId cur) = Ok x
       else k = apiKey cur ∧ x = modelId cur).
Proof.
  rewrite hook_commit_eq.
  destruct (getModel' (selectedProvider cur) (apiKey cur) (modelId cur))
    as [v|err]; simpl; [|done].
  destruct (changed selectedProvider prev cur).
  - destruct (restored (apiKeyMap cur) _ _ _) as [k|]; simpl; [|done].
    destruct (restored (preferredModelMap cur) _ _ _) as [x|]; simpl; [|done].
    intros [= <-]. by exists v, k, x.
  - intros [= <-]. by exists v, (apiKey cur), (modelId cur).
Qed.

(** *** Closed forms of the three events *)

Lemma dispatch_setApiKey_same fuel s v :
  apiKey s = JString v →
  dispatch providers modelType fuel s (SetApiKey v) = Settled s.
Proof.
  intros Hv. unfold dispatch, after_event, hook_same_deps. simpl.
  by rewrite !bool_decide_eq_true_2.
Qed.

Lemma dispatch_setModelId_same fuel s x :
  modelId s = JString x →
  dispatch providers modelType fuel s (SetModelId x) = Settled s.
Proof.
  intros Hx. unfold dispatch, after_event, hook_same_deps. simpl.
  by rewrite !bool_decide_eq_true_2.
Qed.

Lemma dispatch_setSelectedProvider_same fuel s :
  dispatch providers modelType fuel s
    (SetSelectedProvider (selectedProvider s)) = Settled s.
Proof.
  unfold dispatch, after_event, hook_same_deps. simpl.
  by rewrite !bool_decide_eq_true_2.
Qed.

Lemma dispatch_setApiKey fuel s v h :
  JString v ≠ apiKey s →
  getModel' (selectedProvider s) (JString v) (modelId s) = Ok h →
  dispatch providers modelType (S fuel) s (SetApiKey v)
  = Settled {| apiKeyMap := <[selectedProvider s := JString v]> (apiKeyMap s);
               preferredModelMap := preferredModelMap s;
               selectedProvider := selectedProvider s; apiKey := JString v;
               modelId := modelId s; model := h |}.
Proof.
  intros Hv Hh. unfold dispatch, after_event. simpl.
  unfold hook_same_deps at 1. simpl.
  rewrite (bool_decide_eq_false_2 (apiKey s = JString v)) by done.
  rewrite andb_false_r. simpl.
  rewrite (hook_commit_stay _ _ h) by done.
  unfold commit_result, commit_to, changed. simpl.
  rewrite (bool_decide_eq_true_2 (apiKey s ≠ JString v)) by done.
  unchanged.
  simpl. unfold hook_same_deps. simpl.
  by rewrite !bool_decide_eq_true_2.
Qed.

Lemma dispatch_setModelId fuel s x h :
  JString x ≠ modelId s →
  getModel' (selectedProvider s) (apiKey s) (JString x) = Ok h →
  dispatch providers modelType (S fuel) s (SetModelId x)
  = Settled {| apiKeyMap := apiKeyMap s;
               preferredModelMap :=
                 <[selectedProvider s := JString x]> (preferredModelMap s);
               selectedProvider := selectedProvider s; apiKey := apiKey s;
               modelId := JString x; model := h |}.
Proof.
  intros Hv Hh. unfold dispatch, after_event. simpl.
  unfold hook_same_deps at 1. simpl.
  rewrite (bool_decide_eq_false_2 (modelId s = JString x)) by done.
  rewrite andb_false_r. simpl.
  rewrite (hook_commit_stay _ _ h) by done.
  unfold commit_result, commit_to, changed. simpl.
  rewrite (bool_decide_eq_true_2 (modelId s ≠ JString x)) by done.
  unchanged.
  simpl. unfold hook_same_deps. simpl.
  by rewrite !bool_decide_eq_true_2.
Qed.

(** The first commit after a switch: the handle is rebuilt from the new
    provider and the old credential and model id, the restore effect
    queues what it read. *)
Lemma commit_switch_to s P h1 k x :
  P ≠ selectedProvider s →
  getModel' P (apiKey s) (modelId s) = Ok h1 →
  restored (apiKeyMap s) P (JString "") (apiKey s) = Ok k →
  restored (preferredModelMap s) P (first_id P) (modelId s) = Ok x →
  hook_commit providers modelType (Some s) (setSelectedProvider P s)
  = Ok {| apiKeyMap := apiKeyMap s; preferredModelMap := preferredModelMap s;
          selectedProvider := P; apiKey := k; modelId := x; model := h1 |}.
Proof.
  intros HP Hh Hk Hx. rewrite (hook_commit_to _ _ h1 k x) by done.
  unfold commit_to, changed. simpl.
  rewrite (bool_decide_eq_true_2 (selectedProvider s ≠ P)) by done.
  unchanged.
  done.
Qed.

Lemma dispatch_switch_to fuel s P h1 h k x :
  P ≠ selectedProvider s →
  getModel' P (apiKey s) (modelId s) = Ok h1 →
  restored (apiKeyMap s) P (JString "") (apiKey s) = Ok k →
  restored (preferredModelMap s) P (first_id P) (modelId s) = Ok x →
  getModel' P k x = Ok h →
  dispatch providers modelType (S (S fuel)) s (SetSelectedProvider P)
  = Settled (switched_to s P k x h).
Proof.
  intros HP Hh1 Hk Hx Hh. unfold dispatch, after_event.
  unfold hook_same_deps at 1. simpl apply_event.
  cbn [selectedProvider setSelectedProvider].
  rewrite (bool_decide_eq_false_2 (selectedProvider s = P)) by done.
  cbn [andb]. rewrite settle_S.
  rewrite (commit_switch_to _ _ h1 k x) by done.
  unfold hook_same_deps at 1. simpl.
  rewrite (bool_decide_eq_true_2 (P = P)) by done. simpl.
  unfold switched_to.
  destruct (decide (k = apiKey s)) as [Hk'|Hk'];
    destruct (decide (x = modelId s)) as [Hm|Hm].
  - rewrite !bool_decide_eq_true_2 by done. simpl.
    rewrite Hk', Hm in *. congruence.
  - rewrite (bool_decide_eq_false_2 (modelId s = _)) by done.
    rewrite andb_false_r.
    rewrite (hook_commit_stay _ _ h) by done.
    unfold commit_result, commit_to, changed, hook_same_deps. simpl.
    rewrite (bool_decide_eq_true_2 (modelId s ≠ _)) by done.
    rewrite (bool_decide_eq_false_2 (apiKey s ≠ _)) by (intros Hn; by apply Hn).
    unchanged.
    simpl. by rewrite !bool_decide_eq_true_2.
  - rewrite (bool_decide_eq_false_2 (apiKey s = _)) by done.
    simpl.
    rewrite (hook_commit_stay _ _ h) by done.
    unfold commit_result, commit_to, changed, hook_same_deps. simpl.
    rewrite (bool_decide_eq_true_2 (apiKey s ≠ _)) by done.
    rewrite (bool_decide_eq_false_2 (modelId s ≠ _)) by (intros Hn; by apply Hn).
    unchanged.
    simpl. by rewrite !bool_decide_eq_true_2.
  - rewrite (bool_decide_eq_false_2 (apiKey s = _)) by done.
    simpl.
    rewrite (hook_commit_stay _ _ h) by done.
    unfold commit_result, commit_to, changed, hook_same_deps. simpl.
    rewrite (bool_decide_eq_true_2 (apiKey s ≠ _)) by done.
    rewrite (bool_decide_eq_true_2 (modelId s ≠ _)) by done.
    unchanged.
    simpl. by rewrite !bool_decide_eq_true_2.
Qed.

(** The same for a target whose reads see own properties. *)
Lemma commit_switch s P h1 :
  P ≠ selectedProvider s →
  safe_target s P →
  getModel' P (apiKey s) (modelId s) = Ok h1 →
  hook_commit providers modelType (Some s) (setSelectedProvider P s)
  = Ok {| apiKeyMap := apiKeyMap s; preferredModelMap := preferredModelMap s;
          selectedProvider := P;
          apiKey := restore_key (apiKeyMap s) P;
          modelId := restore_id providers (preferredModelMap s) P;
          model := h1 |}.
Proof.
  intros HP [Hkm Hpm] Hh.
  apply commit_switch_to; [done..| |]; by rewrite restored_own_or_plain.
Qed.

Lemma dispatch_setSelectedProvider fuel s P h1 h :
  P ≠ selectedProvider s →
  safe_target s P →
  getModel' P (apiKey s) (modelId s) = Ok h1 →
  getModel' P (restore_key (apiKeyMap s) P)
    (restore_id providers (preferredModelMap s) P) = Ok h →
  dispatch providers modelType (S (S fuel)) s (SetSelectedProvider P)
  = Settled (switched providers s P h).
Proof.
  intros HP [Hkm Hpm] Hh1 Hh.
  apply (dispatch_switch_to _ _ _ h1); [done..| | |done];
    by rewrite restored_own_or_plain.
Qed.

(** *** The fields of a commit's result *)

Lemma commit_to_selectedProvider prev (cur : State Model) v k x :
  selectedProvider (commit_to prev cur v k x) = selectedProvider cur.
Proof. unfold commit_to. by repeat (destruct (changed _ _ _); simpl). Qed.

Lemma commit_to_apiKey prev (cur : State Model) v k x :
  apiKey (commit_to prev cur v k x)
  = if changed selectedProvider prev cur then k else apiKey cur.
Proof. unfold commit_to. by repeat (destruct (changed _ _ _); simpl). Qed.

Lemma commit_to_modelId prev (cur : State Model) v k x :
  modelId (commit_to prev cur v k x)
  = if changed selectedProvider prev cur then x else modelId cur.
Proof. unfold commit_to. by repeat (destruct (changed _ _ _); simpl). Qed.

Lemma commit_to_apiKeyMap prev (cur : State Model) v k x :
  apiKeyMap (commit_to prev cur v k x)
  = if changed apiKey prev cur
    then <[selectedProvider cur := apiKey cur]> (apiKeyMap cur)
    else apiKeyMap cur.
Proof. unfold commit_to. by repeat (destruct (changed _ _ _); simpl). Qed.

Lemma commit_to_preferredModelMap prev (cur : State Model) v k x :
  preferredModelMap (commit_to prev cur v k x)
  = if changed modelId prev cur
    then <[selectedProvider cur := modelId cur]> (preferredModelMap cur)
    else preferredModelMap cur.
Proof. unfold commit_to. by repeat (destruct (changed _ _ _); simpl). Qed.

Lemma commit_to_model prev (cur : State Model) v k x :
  model (commit_to prev cur v k x)
  = if changed apiKey prev cur || changed selectedProvider prev cur
       || changed modelId prev cur
    then v else model cur.
Proof. unfold commit_to. by repeat (destruct (changed _ _ _); simpl). Qed.

Lemma changed_false {A} `{EqDecision A} (f : State Model → A) prev cur :
  changed f prev cur = false → ∃ p, prev = Some p ∧ f p = f cur.
Proof.
  destruct prev as [p|]; simpl; [|done].
  intros H. apply bool_decide_eq_false_1 in H.
  exists p. split; [done|]. by destruct (decide (f p = f cur)).
Qed.

(** *** Every reachable state remembers its fields *)

(** One field through one commit: [m] is the field's dictionary and
    [field] its value in the render, [m'] and [field'] after the commit. *)
Lemma remembered_step (m m' : gmap string JsValue) key fallback
    (field field' : JsValue) (wrote ran : bool) r :
  m' = (if wrote then <[key := field]> m else m) →
  (if ran then restored m key fallback field = Ok r else r = field) →
  field' = r →
  (wrote = false → ran = false → remembered m key fallback field) →
  field = field' →
  remembered m' key fallback field'.
Proof.
  intros -> Hr -> Hkept Heq Hexp. subst r.
  destruct wrote.
  - left. by rewrite lookup_insert_eq.
  - destruct ran.
    + right. by apply restored_fixed.
    + by apply Hkept.
Qed.

Lemma hook_commit_inv prev cur next :
  loop_inv providers prev cur →
  hook_commit providers modelType prev cur = Ok next →
  selectedProvider next = selectedProvider cur
  ∧ is_Some (pmap !! selectedProvider cur)
  ∧ (apiKey cur = apiKey next → key_remembered next)
  ∧ (modelId cur = modelId next → id_remembered providers next).
Proof.
  intros HL Hc.
  destruct (hook_commit_Ok_inv _ _ _ Hc) as (v & k & x & Hv & -> & Hr).
  split_and!.
  - apply commit_to_selectedProvider.
  - by eapply getModel_Ok_known.
  - unfold key_remembered.
    rewrite commit_to_selectedProvider, commit_to_apiKeyMap, commit_to_apiKey.
    intros Heq.
    apply (remembered_step (apiKeyMap cur) _ _ _ (apiKey cur) _
             (changed apiKey prev cur) (changed selectedProvider prev cur)
             (if changed selectedProvider prev cur then k else apiKey cur));
      [done| |done| |done].
    + destruct (changed selectedProvider prev cur); [apply Hr|done].
    + intros Hk Hsp.
      apply changed_false in Hk as (p & -> & Hk).
      apply changed_false in Hsp as (p' & [= <-] & Hsp).
      by apply HL.
  - unfold id_remembered.
    rewrite commit_to_selectedProvider, commit_to_preferredModelMap,
      commit_to_modelId.
    intros Heq.
    apply (remembered_step (preferredModelMap cur) _ _ _ (modelId cur) _
             (changed modelId prev cur) (changed selectedProvider prev cur)
             (if changed selectedProvider prev cur then x else modelId cur));
      [done| |done| |done].
    + destruct (changed selectedProvider prev cur); [apply Hr|done].
    + intros Hk Hsp.
      apply changed_false in Hk as (p & -> & Hk).
      apply changed_false in Hsp as (p' & [= <-] & Hsp).
      by apply HL.
Qed.

Lemma settle_inv fuel prev cur s' :
  loop_inv providers prev cur →
  settle (hook_commit providers modelType) hook_same_deps fuel prev cur
  = Settled s' →
  key_remembered s' ∧ id_remembered providers s'
  ∧ is_Some (pmap !! selectedProvider s').
Proof.
  apply (settle_invariant _ _ (loop_inv providers)
           (λ s : State Model, key_remembered s ∧ id_remembered providers s
                 ∧ is_Some (pmap !! selectedProvider s))).
  clear. intros prev cur next HL Hc.
  destruct (hook_commit_inv _ _ _ HL Hc) as (Hsp & Hknown & HK & HJ).
  split.
  - unfold hook_same_deps. intros Hd.
    apply andb_prop in Hd as [Hd Hm]. apply andb_prop in Hd as [_ Hk].
    apply bool_decide_eq_true_1 in Hm, Hk.
    rewrite Hsp. auto.
  - simpl. intros _. split; auto.
Qed.

Lemma reachable_inv s :
  reachable providers modelType s →
  key_remembered s ∧ id_remembered providers s
  ∧ is_Some (pmap !! selectedProvider s).
Proof.
  induction 1 as [fuel s Hm | fuel s ev s' Hr IH Hd].
  - unfold mount in Hm.
    destruct (initial_state providers modelType) as [s0|]; [|done].
    by apply (settle_inv fuel None s0).
  - unfold dispatch, after_event in Hd.
    destruct (hook_same_deps s (apply_event ev s)) eqn:Hsame.
    + by injection Hd as <-.
    + apply (settle_inv fuel (Some s) (apply_event ev s)); [|done].
      destruct IH as (HK & HJ & _). simpl. intros Hsp.
      unfold key_remembered, id_remembered in *.
      destruct ev; simpl in *; split; intros Heq;
        rewrite <- ?Heq, <- ?Hsp; done.
Qed.

(** *** Edits touch one entry *)

Lemma dispatch_edit fuel s ev :
  never_throws providers modelType →
  is_Some (pmap !! selectedProvider s) →
  is_edit ev →
  ∃ s', dispatch providers modelType (S fuel) s ev = Settled s'
    ∧ selectedProvider s' = selectedProvider s
    ∧ match ev with
      | SetApiKey v =>
          apiKey s' = JString v ∧ modelId s' = modelId s
          ∧ preferredModelMap s' = preferredModelMap s
          ∧ apiKeyMap s' =
              if decide (JString v = apiKey s) then apiKeyMap s
              else <[selectedProvider s := JString v]> (apiKeyMap s)
      | SetModelId x =>
          modelId s' = JString x ∧ apiKey s' = apiKey s
          ∧ apiKeyMap s' = apiKeyMap s
          ∧ preferredModelMap s' =
              if decide (JString x = modelId s) then preferredModelMap s
              else <[selectedProvider s := JString x]> (preferredModelMap s)
      | SetSelectedProvider _ => True
      end.
Proof.
  intros Hnt [e He] Hed. destruct ev as [v|x|]; [| |done].
  - destruct (decide (JString v = apiKey s)) as [Hv|Hv].
    + exists s. rewrite dispatch_setApiKey_same by done. done.
    + destruct (getModel_known _ _ (JString v) (modelId s) Hnt He) as [h Hh].
      eexists. rewrite (dispatch_setApiKey _ _ _ h) by done.
      split; [done|]. done.
  - destruct (decide (JString x = modelId s)) as [Hx|Hx].
    + exists s. rewrite dispatch_setModelId_same by done. done.
    + destruct (getModel_known _ _ (apiKey s) (JString x) Hnt He) as [h Hh].
      eexists. rewrite (dispatch_setModelId _ _ _ h) by done.
      split; [done|]. done.
Qed.

(** An edit leaves the entries of every other provider alone. *)
Lemma dispatch_edit_frame fuel s ev :
  never_throws providers modelType →
  is_Some (pmap !! selectedProvider s) →
  is_edit ev →
  ∃ s', dispatch providers modelType (S fuel) s ev = Settled s'
    ∧ selectedProvider s' = selectedProvider s
    ∧ ∀ B, B ≠ selectedProvider s →
        apiKeyMap s' !! B = apiKeyMap s !! B
        ∧ preferredModelMap s' !! B = preferredModelMap s !! B.
Proof.
  intros Hnt Hk Hed.
  destruct (dispatch_edit fuel s ev Hnt Hk Hed) as (s' & Hd & Hsp & Hev).
  exists s'. split_and!; [done..|]. intros B HB.
  destruct ev as [v|x|]; [| |done].
  - destruct Hev as (_ & _ & -> & ->).
    case_decide; [done|]. by rewrite lookup_insert_ne.
  - destruct Hev as (_ & _ & -> & ->).
    case_decide; [done|]. by rewrite lookup_insert_ne.
Qed.

Lemma dispatch_edits_frame fuel edits : ∀ s,
  never_throws providers modelType →
  is_Some (pmap !! selectedProvider s) →
  Forall is_edit edits →
  ∃ s', dispatch_all providers modelType (S fuel) s edits = Settled s'
    ∧ selectedProvider s' = selectedProvider s
    ∧ ∀ B, B ≠ selectedProvider s →
        apiKeyMap s' !! B = apiKeyMap s !! B
        ∧ preferredModelMap s' !! B = preferredModelMap s !! B.
Proof.
  induction edits as [|ev edits IH]; intros s Hnt Hk Hed.
  - exists s. done.
  - apply Forall_cons in Hed as [Hev Hed].
    destruct (dispatch_edit_frame fuel s ev Hnt Hk Hev)
      as (s1 & Hd & Hsp & Hfr).
    destruct (IH s1 Hnt) as (s' & Hd' & Hsp' & Hfr'); [by rewrite Hsp|done|].
    exists s'. simpl. rewrite Hd. split_and!; [done|congruence|].
    intros B HB. destruct (Hfr B HB) as [<- <-].
    apply Hfr'. congruence.
Qed.

(** *** Switching *)

Lemma dispatch_switch fuel s P :
  never_throws providers modelType →
  is_Some (pmap !! P) →
  P ≠ selectedProvider s →
  safe_target s P →
  ∃ h, getModel' P (restore_key (apiKeyMap s) P)
         (restore_id providers (preferredModelMap s) P) = Ok h
    ∧ dispatch providers modelType (S (S fuel)) s (SetSelectedProvider P)
      = Settled (switched providers s P h).
Proof.
  intros Hnt [e He] HP Hsafe.
  destruct (getModel_known _ _ (apiKey s) (modelId s) Hnt He) as [h1 Hh1].
  destruct (getModel_known _ _ (restore_key (apiKeyMap s) P)
              (restore_id providers (preferredModelMap s) P) Hnt He)
    as [h Hh].
  exists h. split; [done|]. by apply (dispatch_setSelectedProvider _ _ _ h1).
Qed.

Lemma switched_to_frame (s : State Model) P k x h B :
  B ≠ P →
  apiKeyMap (switched_to s P k x h) !! B = apiKeyMap s !! B
  ∧ preferredModelMap (switched_to s P k x h) !! B
    = preferredModelMap s !! B.
Proof.
  intros HB. unfold switched_to. simpl.
  split; case_decide; try done; by rewrite lookup_insert_ne.
Qed.

Lemma own_or_plain_ext (m1 m2 : gmap string JsValue) key :
  m1 !! key = m2 !! key → own_or_plain m1 key → own_or_plain m2 key.
Proof. unfold own_or_plain. by intros ->. Qed.

Lemma dispatch_all_app fuel s evs1 evs2 s1 :
  dispatch_all providers modelType fuel s evs1 = Settled s1 →
  dispatch_all providers modelType fuel s (evs1 ++ evs2)
  = dispatch_all providers modelType fuel s1 evs2.
Proof.
  revert s. induction evs1 as [|ev evs1 IH]; intros s H; simpl in *.
  - by injection H as ->.
  - destruct (dispatch providers modelType fuel s ev); try done.
    by apply IH.
Qed.

(** Leaving a provider and coming back, with edits in between: what the
    restore effect gives for the provider left comes back. *)
Lemma round_trip fuel s B edits k0 x0 :
  never_throws providers modelType →
  is_Some (pmap !! selectedProvider s) →
  is_Some (pmap !! B) →
  safe_target s B →
  B ≠ selectedProvider s →
  Forall is_edit edits →
  restores (apiKeyMap s) (selectedProvider s) (JString "") k0 →
  restores (preferredModelMap s) (selectedProvider s)
    (first_id (selectedProvider s)) x0 →
  ∃ s', dispatch_all providers modelType (S (S fuel)) s
          (SetSelectedProvider B :: edits
             ++ [SetSelectedProvider (selectedProvider s)])
        = Settled s'
    ∧ selectedProvider s' = selectedProvider s
    ∧ apiKey s' = k0 ∧ modelId s' = x0.
Proof.
  intros Hnt HA HB Hsafe Hne Hed Hk0 Hx0.
  destruct (dispatch_switch fuel s B Hnt HB Hne Hsafe) as (h & _ & Hd1).
  set (s1 := switched providers s B h) in *.
  destruct (dispatch_edits_frame (S fuel) edits s1 Hnt)
    as (s2 & Hd2 & Hsp2 & Hfr2); [done..|].
  assert (selectedProvider s ≠ selectedProvider s2) as Hne2
    by (rewrite Hsp2; simpl; congruence).
  destruct (Hfr2 (selectedProvider s)) as [Hkm Hpm]; [simpl; congruence|].
  destruct (switched_to_frame s B (restore_key (apiKeyMap s) B)
              (restore_id providers (preferredModelMap s) B) h
              (selectedProvider s)) as [Hkm1 Hpm1]; [congruence|].
  fold (switched providers s B h) in Hkm1, Hpm1. fold s1 in Hkm1, Hpm1.
  destruct HA as [e He].
  destruct (getModel_known _ _ (apiKey s2) (modelId s2) Hnt He) as [h2 Hh2].
  destruct (getModel_known _ _ k0 x0 Hnt He) as [h3 Hh3].
  exists (switched_to s2 (selectedProvider s) k0 x0 h3).
  split_and!; [|done..].
  cbn [dispatch_all]. rewrite Hd1. fold s1.
  rewrite (dispatch_all_app _ _ _ _ s2) by done.
  cbn [dispatch_all].
  rewrite (dispatch_switch_to _ _ _ h2 h3 k0 x0); [done..| | |done].
  - rewrite (restored_ext _ (apiKeyMap s)) by congruence. apply Hk0.
  - rewrite (restored_ext _ (preferredModelMap s)) by congruence. apply Hx0.
Qed.

Lemma round_trip_recorded fuel s0 k1 m1 B edits :
  never_throws providers modelType →
  reachable providers modelType s0 →
  is_Some (pmap !! B) →
  safe_target s0 B →
  B ≠ selectedProvider s0 →
  Forall is_edit edits →
  m1 ≠ "" →
  ∃ s', dispatch_all providers modelType (S (S fuel)) s0
          (SetApiKey k1 :: SetModelId m1 :: SetSelectedProvider B :: edits
             ++ [SetSelectedProvider (selectedProvider s0)])
        = Settled s'
    ∧ selectedProvider s' = selectedProvider s0
    ∧ apiKey s' = JString k1 ∧ modelId s' = JString m1.
Proof.
  intros Hnt Hr HB [Hs1 Hs2] Hne Hed Hm1.
  destruct (reachable_inv _ Hr) as (_ & _ & HA).
  destruct (dispatch_edit (S fuel) s0 (SetApiKey k1) Hnt HA I)
    as (s1 & Hd1 & Hsp1 & Hk1' & _).
  destruct (dispatch_edit_frame (S fuel) s0 (SetApiKey k1) Hnt HA I)
    as (s1' & Hd1' & _ & Hfr1).
  rewrite Hd1 in Hd1'. injection Hd1' as <-.
  assert (reachable providers modelType s1) as Hr1 by (by econstructor 2).
  destruct (dispatch_edit (S fuel) s1 (SetModelId m1) Hnt) as
    (s2 & Hd2 & Hsp2 & Hid2 & Hk2 & Hkm2 & _); [by rewrite Hsp1|done|].
  destruct (dispatch_edit_frame (S fuel) s1 (SetModelId m1) Hnt)
    as (s2' & Hd2' & _ & Hfr2); [by rewrite Hsp1|done|].
  rewrite Hd2 in Hd2'. injection Hd2' as <-.
  assert (reachable providers modelType s2) as Hr2 by (by econstructor 2).
  destruct (reachable_inv _ Hr2) as (HK & HJ & HA2).
  assert (apiKey s2 = JString k1) as Hk1 by congruence.
  destruct (Hfr1 B Hne) as [Ha1 Ha2].
  destruct (Hfr2 B) as [Hb1 Hb2]; [congruence|].
  destruct (round_trip fuel s2 B edits (JString k1) (JString m1) Hnt HA2 HB)
    as (s' & Hd & Hsp & Hk & Hid).
  - split.
    + apply (own_or_plain_ext (apiKeyMap s0)); [congruence|done].
    + apply (own_or_plain_ext (preferredModelMap s0)); [congruence|done].
  - congruence.
  - done.
  - apply remembered_restores_key. unfold key_remembered in HK.
    by rewrite Hk1 in HK.
  - apply remembered_restores_id; [done|]. unfold id_remembered in HJ.
    by rewrite Hid2 in HJ.
  - exists s'. split_and!; [|congruence|done..].
    cbn [dispatch_all]. rewrite Hd1, Hd2.
    replace (selectedProvider s0) with (selectedProvider s2) by congruence.
    done.
Qed.

(** Which entries [providerMap] can hold. *)
Lemma providerMap_lookup_Some n e :
  pmap !! n = Some e →
  ∃ p, p ∈ providers ∧ name p = n
    ∧ e = {| entry_provider := provider p; entry_models := models p |}.
Proof.
  unfold providerMap.
  assert (∀ (acc : gmap string (ProviderEntry Model)) l,
    foldl (λ pm p, <[name p := {| entry_provider := provider p;
                                  entry_models := models p |}]> pm) acc l
      !! n = Some e →
    acc !! n = Some e
    ∨ ∃ p, p ∈ l ∧ name p = n
        ∧ e = {| entry_provider := provider p; entry_models := models p |})
    as Hgen.
  { intros acc l. revert acc.
    induction l as [|p l IH]; intros acc H; simpl in H; [by left|].
    destruct (IH _ H) as [Hacc|(q & Hq & Hn & He)].
    - destruct (decide (name p = n)) as [Hn|Hn].
      + rewrite Hn, lookup_insert_eq in Hacc. injection Hacc as <-.
        right. exists p. split_and!; [left|done..].
      + rewrite lookup_insert_ne in Hacc by done. by left.
    - right. exists q. split_and!; [by right|done..]. }
  intros H. destruct (Hgen _ _ H) as [Hacc|Hp]; [|done].
  by rewrite lookup_empty in Hacc.
Qed.

Lemma foldl_insert_notin (acc : gmap string (ProviderEntry Model)) l n :
  n ∉ name <$> l →
  foldl (λ pm p, <[name p := {| entry_provider := provider p;
                                entry_models := models p |}]> pm) acc l !! n
  = acc !! n.
Proof.
  revert acc. induction l as [|p l IH]; intros acc Hn; simpl; [done|].
  rewrite fmap_cons in Hn. apply not_elem_of_cons in Hn as [Hp Hl].
  rewrite IH by done. by rewrite lookup_insert_ne.
Qed.

(** With unique names the first descriptor keeps its entry. *)
Lemma providerMap_head p0 rest :
  providers = p0 :: rest →
  NoDup (name <$> providers) →
  pmap !! name p0
  = Some {| entry_provider := provider p0; entry_models := models p0 |}.
Proof.
  intros -> Hnd. rewrite fmap_cons in Hnd. apply NoDup_cons in Hnd as [Hn _].
  unfold providerMap. simpl. rewrite foldl_insert_notin by done.
  by rewrite lookup_insert_eq.
Qed.

Lemma providerMap_head_known p0 rest :
  providers = p0 :: rest → is_Some (pmap !! name p0).
Proof.
  intros ->. unfold providerMap. simpl.
  assert (∀ (acc : gmap string (ProviderEntry Model)) l n,
    is_Some (acc !! n) →
    is_Some (foldl (λ pm p, <[name p := {| entry_provider := provider p;
                                          entry_models := models p |}]> pm)
               acc l !! n)) as Hgen.
  { intros acc l n. revert acc.
    induction l as [|p l IH]; intros acc H; simpl; [done|].
    apply IH. destruct (decide (name p = n)) as [->|Hn].
    - rewrite lookup_insert_eq. eauto.
    - by rewrite lookup_insert_ne. }
  apply Hgen. rewrite lookup_insert_eq. eauto.
Qed.

Lemma initial_state_eq p0 rest :
  providers = p0 :: rest →
  initial_state providers modelType
  = (v ← getModel' (name p0) (JString "") (js_head (models p0)) ;
     Ok {| apiKeyMap := ∅; preferredModelMap := ∅;
           selectedProvider := name p0; apiKey := JString "";
           modelId := js_head (models p0); model := v |}).
Proof. intros Hp. unfold initial_state, initial_state_from. by rewrite Hp. Qed.

Lemma mount_unique_names fuel p0 rest v :
  providers = p0 :: rest →
  NoDup (name <$> providers) →
  plain (name p0) →
  getModel' (name p0) (JString "") (js_head (models p0)) = Ok v →
  mount providers modelType (S fuel)
  = Settled {| apiKeyMap := {[ name p0 := JString "" ]};
               preferredModelMap := {[ name p0 := js_head (models p0) ]};
               selectedProvider := name p0; apiKey := JString "";
               modelId := js_head (models p0); model := v |}.
Proof.
  intros Hp Hnd Hpl Hv. pose proof (providerMap_head _ _ Hp Hnd) as Hl.
  unfold mount. rewrite (initial_state_eq _ _ Hp), Hv. simpl.
  rewrite (hook_commit_ok _ _ v) by (try done; intros _; by split; right).
  unfold commit_result, commit_to, changed, restore_id, restore_key,
    modelIdList, hook_same_deps.
  simpl. rewrite !lookup_empty, Hl. simpl.
  rewrite !bool_decide_eq_true_2 by done. simpl.
  unfold setPreferredModelMap, setApiKeyMap. simpl.
  by rewrite !insert_empty.
Qed.

Lemma effect_model_unknown c pending :
  pmap !! selectedProvider c = None →
  effect_model providers modelType c pending = Ok pending.
Proof. intros H. unfold effect_model, construct. by rewrite H. Qed.

Lemma effect_model_throw c pending err :
  is_Some (pmap !! selectedProvider c) →
  getModel' (selectedProvider c) (apiKey c) (modelId c) = Throw err →
  effect_model providers modelType c pending = Throw err.
Proof.
  intros [e He]. unfold getModel, effect_model, construct. rewrite He.
  destruct (entry_provider e (apiKey c)) as [p|]; simpl.
  - by intros ->.
  - by intros [= ->].
Qed.

Lemma dispatch_unknown fuel s unknown :
  pmap !! unknown = None →
  unknown ≠ selectedProvider s →
  dispatch providers modelType (S fuel) s (SetSelectedProvider unknown)
  = Crashed (TypeError (accessor_name modelType)).
Proof.
  intros Hu Hne.
  unfold dispatch, after_event, hook_same_deps. simpl.
  rewrite (bool_decide_eq_false_2 (selectedProvider s = unknown)) by done.
  simpl.
  rewrite (hook_commit_throw (Some s) (setSelectedProvider unknown s)
             (TypeError (accessor_name modelType))); [done|].
  by apply getModel_unknown.
Qed.

(** The restore effect after a render that succeeded does not throw. *)
Lemma effect_restore_after_render c pending :
  is_Some (pmap !! selectedProvider c) →
  ∃ pending', effect_restore providers c pending = Ok pending'.
Proof.
  intros [e He]. unfold effect_restore. rewrite He.
  destruct (truthy_read (read (preferredModelMap c) _)); simpl;
    destruct (truthy_read (read (apiKeyMap c) _)); eauto.
Qed.

Lemma never_throws_Forall :
  Forall (λ p, ∀ k id, ∃ pr v,
            provider p k = Ok pr ∧ accessor modelType pr id = Ok v)
    providers →
  never_throws providers modelType.
Proof.
  intros HF n e k id He.
  destruct (providerMap_lookup_Some n e He) as (p & Hp & _ & ->).
  rewrite Forall_forall in HF. by apply HF.
Qed.
End HookFacts.

Lemma demo_never_throws ps mt :
  Forall (λ p, ∃ n ms, p = Demo.desc n ms) ps → never_throws ps mt.
Proof.
  intros H. apply never_throws_Forall.
  eapply Forall_impl; [done|]. intros p (n & ms & ->) k id.
  destruct mt; eexists _, _; split; reflexivity.
Qed.

Lemma demo_two_never_throws mt : never_throws Demo.two mt.
Proof. apply demo_never_throws. repeat constructor; eexists _, _; reflexivity. Qed.

Lemma demo_two_plain_names : plain_names Demo.two.
Proof.
  intros n [e He].
  destruct (providerMap_lookup_Some Demo.two n e He) as (p & Hp & <- & _).
  repeat (apply elem_of_cons in Hp as [->|Hp]; [reflexivity|]).
  by apply elem_of_nil in Hp.
Qed.

Lemma demo_mounted : mount Demo.two Language 2 = Settled Demo.mounted.
Proof. vm_compute. reflexivity. Qed.

Lemma demo_at_google :
  dispatch Demo.two Language 2 Demo.mounted (SetSelectedProvider "Google")
  = Settled Demo.at_google.
Proof. vm_compute. reflexivity. Qed.

Section PickerFacts.
Context {Model : Type}.
Variable providers : list (ProviderDescriptor Model).
Variable modelType : ModelType.

Lemma hook_effects_ok prev cur v :
  getModel providers modelType (selectedProvider cur) (apiKey cur)
    (modelId cur) = Ok v →
  (changed selectedProvider prev cur = true →
   safe_target cur (selectedProvider cur)) →
  hook_effects providers modelType prev cur (start cur)
  = Ok (start (commit_result providers prev cur v)).
Proof.
  intros Hv Hs.
  pose proof (hook_commit_ok providers modelType prev cur v Hv Hs) as Hc.
  unfold hook_commit, render in Hc. rewrite Hv in Hc. simpl in Hc.
  destruct (hook_effects providers modelType prev cur (start cur))
    as [[q fl]|]; simpl in Hc; [|done].
  unfold resolve in Hc. simpl in Hc. destruct fl; [done|].
  by injection Hc as ->.
Qed.

Lemma picker_commit_ok prev cur v :
  getModel providers modelType (selectedProvider (hook cur))
    (apiKey (hook cur)) (modelId (hook cur)) = Ok v →
  (changed selectedProvider (hook <$> prev) (hook cur) = true →
   safe_target (hook cur) (selectedProvider (hook cur))) →
  picker_commit providers modelType prev cur
  = Ok (picker_result providers prev cur v).
Proof.
  intros Hv Hs. unfold picker_commit, render, picker_effects. rewrite Hv.
  simpl. unfold hook_queue. simpl. fold (start (hook cur)).
  rewrite (hook_effects_ok _ _ v Hv Hs). simpl.
  unfold picker_result, when, effect_custom, effect_snap.
  destruct (changed modelId (hook <$> prev) (hook cur)); simpl;
    destruct (changed_flag prev cur); simpl;
    destruct cur as [hc []]; simpl; try done;
    by destruct (includes (modelIdList providers (selectedProvider hc))
                   (modelId hc)).
Qed.

(** A commit of the shell without a change of provider. *)
Lemma picker_commit_stay p cur v :
  selectedProvider (hook p) = selectedProvider (hook cur) →
  getModel providers modelType (selectedProvider (hook cur))
    (apiKey (hook cur)) (modelId (hook cur)) = Ok v →
  picker_commit providers modelType (Some p) cur
  = Ok (picker_result providers (Some p) cur v).
Proof.
  intros Hsp Hv. apply picker_commit_ok; [done|].
  simpl. by rewrite bool_decide_eq_false_2 by (intros Hn; by apply Hn).
Qed.

Lemma picker_setModelId fuel ps x :
  never_throws providers modelType →
  is_Some (providerMap providers !! selectedProvider (hook ps)) →
  x ∉ modelIdList providers (selectedProvider (hook ps)) →
  JString x ≠ modelId (hook ps) →
  ∃ h, picker_dispatch providers modelType (S (S fuel)) ps
         (Edit (SetModelId x))
       = Settled {| hook := h; useCustomModelInput := true |}
    ∧ modelId h = JString x
    ∧ selectedProvider h = selectedProvider (hook ps)
    ∧ apiKey h = apiKey (hook ps).
Proof.
  intros Hnt [e He] Hx Hne. destruct ps as [h f]. simpl in *.
  unfold picker_dispatch, after_event.
  destruct (getModel_known providers modelType _ _ (apiKey h) (JString x)
              Hnt He) as [v Hv].
  unfold picker_same_deps at 1. unfold hook_same_deps. simpl.
  rewrite (bool_decide_eq_false_2 (modelId h = JString x)) by done.
  rewrite andb_false_r. simpl.
  rewrite (picker_commit_stay _ _ v) by done.
  unfold picker_result, commit_result, commit_to, changed, changed_flag. simpl.
  rewrite (bool_decide_eq_true_2 (modelId h ≠ JString x)) by done.
  unchanged.
  simpl.
  rewrite (bool_decide_eq_false_2 (x ∈ _)) by done. simpl.
  unfold picker_same_deps, hook_same_deps. simpl.
  rewrite !bool_decide_eq_true_2 by done. simpl.
  destruct f; simpl.
  - eexists. split; [done|]. done.
  - rewrite (picker_commit_stay _ _ v) by done.
    unfold picker_result, commit_result, commit_to, changed, changed_flag.
    simpl.
    unchanged.
    simpl. rewrite !bool_decide_eq_true_2 by done. simpl.
    eexists. split; [done|]. done.
Qed.

Lemma picker_setModelId_same fuel ps x :
  modelId (hook ps) = JString x →
  picker_dispatch providers modelType fuel ps (Edit (SetModelId x))
  = Settled ps.
Proof.
  intros Hx. destruct ps as [h f]. simpl in *.
  unfold picker_dispatch, after_event, picker_same_deps, hook_same_deps.
  simpl. by rewrite !bool_decide_eq_true_2.
Qed.

Lemma includes_head l : includes l (js_head l) = bool_decide (l ≠ []).
Proof.
  destruct l as [|a l]; simpl; [done|].
  rewrite !bool_decide_eq_true_2; [done..|]. left.
Qed.

Lemma picker_toggle_to_custom fuel ps v :
  useCustomModelInput ps = false →
  getModel providers modelType (selectedProvider (hook ps))
    (apiKey (hook ps)) (modelId (hook ps)) = Ok v →
  picker_dispatch providers modelType (S fuel) ps Toggle
  = Settled (setUseCustomModelInput true ps).
Proof.
  intros Hf Hv. destruct ps as [h f]. simpl in *. subst f.
  unfold picker_dispatch, after_event, picker_same_deps, hook_same_deps.
  simpl. rewrite !bool_decide_eq_true_2 by done. simpl.
  rewrite (picker_commit_stay _ _ v) by done.
  unfold picker_result, commit_result, commit_to, changed, changed_flag. simpl.
  unchanged.
  simpl. rewrite !bool_decide_eq_true_2 by done. done.
Qed.

Lemma picker_toggle_to_list fuel ps :
  never_throws providers modelType →
  is_Some (providerMap providers !! selectedProvider (hook ps)) →
  useCustomModelInput ps = true →
  ∃ h' f', picker_dispatch providers modelType (S (S (S fuel))) ps Toggle
           = Settled {| hook := h'; useCustomModelInput := f' |}
    ∧ modelId h'
      = js_head (modelIdList providers (selectedProvider (hook ps)))
    ∧ selectedProvider h' = selectedProvider (hook ps)
    ∧ apiKey h' = apiKey (hook ps)
    ∧ apiKeyMap h' = apiKeyMap (hook ps)
    ∧ (modelIdList providers (selectedProvider (hook ps)) ≠ [] →
       f' = false).
Proof.
  intros Hnt [e He] Hf. destruct ps as [h f]. simpl in *. subst f.
  set (l := modelIdList providers (selectedProvider h)).
  destruct (getModel_known providers modelType _ _ (apiKey h) (modelId h) Hnt He)
    as [v0 Hv0].
  destruct (getModel_known providers modelType _ _ (apiKey h) (js_head l) Hnt He)
    as [v1 Hv1].
  unfold picker_dispatch, after_event.
  unfold picker_same_deps at 1. unfold hook_same_deps. simpl.
  rewrite !bool_decide_eq_true_2 by done. simpl.
  rewrite (picker_commit_stay _ _ v0) by done.
  unfold picker_result, commit_result, commit_to, changed, changed_flag. simpl.
  unchanged.
  simpl. fold l.
  unfold picker_same_deps at 1. unfold hook_same_deps. simpl.
  rewrite !bool_decide_eq_true_2 by done. simpl.
  destruct (decide (modelId h = js_head l)) as [Hm|Hm].
  - rewrite (bool_decide_eq_true_2 (modelId h = js_head l)) by done.
    eexists _, _. split; [done|]. done.
  - rewrite (bool_decide_eq_false_2 (modelId h = js_head l)) by done.
    rewrite (picker_commit_stay _ _ v1) by done.
    unfold picker_result, commit_result, commit_to, changed, changed_flag.
    simpl.
    rewrite (bool_decide_eq_true_2 (modelId h ≠ js_head l)) by done.
    unchanged.
    simpl. fold l. rewrite includes_head.
    unfold picker_same_deps at 1. unfold hook_same_deps. simpl.
    rewrite !bool_decide_eq_true_2 by done. simpl.
    destruct (decide (l = [])) as [Hl|Hl].
    + rewrite (bool_decide_eq_false_2 (l ≠ [])) by (intros Hn; by apply Hn).
      simpl.
      rewrite (picker_commit_stay _ _ v1) by done.
      unfold picker_result, commit_result, commit_to, changed, changed_flag.
      simpl.
      unchanged.
      simpl. unfold picker_same_deps, hook_same_deps. simpl.
      rewrite !bool_decide_eq_true_2 by done. simpl.
      eexists _, _. split; [done|]. done.
    + rewrite (bool_decide_eq_true_2 (l ≠ [])) by done. simpl.
      eexists _, _. split; [done|]. done.
Qed.
End PickerFacts.

(** * The claims *)

(** The walk through two providers of the README: each step shows the
    selected provider, the credential and the model id it settles with. *)
Example two_providers_walk :
  (λ s, (selectedProvider s, apiKey s, modelId s))
    <$> state_of (run Demo.two Language 2 [])
  = Some ("OpenAI", JString "", JString "gpt-4o")
  ∧ (λ s, (selectedProvider s, apiKey s, modelId s))
      <$> state_of (run Demo.two Language 2
                      [SetApiKey "sk-1"; SetSelectedProvider "Google"])
    = Some ("Google", JString "", JString "gemini-2.0-flash")
  ∧ (λ s, (selectedProvider s, apiKey s, modelId s))
      <$> state_of (run Demo.two Language 2
                      [SetApiKey "sk-1"; SetSelectedProvider "Google";
                       SetApiKey "sk-2"; SetModelId "custom-model";
                       SetSelectedProvider "OpenAI"])
    = Some ("OpenAI", JString "sk-1", JString "gpt-4o")
  ∧ (λ s, (selectedProvider s, apiKey s, modelId s))
      <$> state_of (run Demo.two Language 2
                      [SetApiKey "sk-1"; SetSelectedProvider "Google";
                       SetApiKey "sk-2"; SetModelId "custom-model";
                       SetSelectedProvider "OpenAI";
                       SetSelectedProvider "Google"])
    = Some ("Google", JString "sk-2", JString "custom-model").
Proof. vm_compute. done. Qed.

(** C1, as the code has it. In a state of the hook in which provider [A]
    is selected, record a credential [k1] and a non-empty model id [m1]
    with [setApiKey] and [setModelId], switch to another listed provider
    [B] whose dictionary reads see own properties only (its name is no
    property name of [Object.prototype], or both maps hold an entry for
    it), edit credential and model id there in any way, and switch back to
    [A]: with an SDK that does not throw every step settles, and the
    credential is [k1] and the model id [m1] again. *)
Theorem switch_restore_round_trip {Model : Type}
    (providers : list (ProviderDescriptor Model)) (modelType : ModelType)
    (s0 : State Model) (A B k1 m1 : string) (edits : list Event)
    (fuel : nat) :
  never_throws providers modelType →
  reachable providers modelType s0 →
  selectedProvider s0 = A →
  is_Some (providerMap providers !! B) →
  safe_target s0 B →
  B ≠ A →
  Forall is_edit edits →
  m1 ≠ "" →
  2 ≤ fuel →
  ∃ s', dispatch_all providers modelType fuel s0
          (SetApiKey k1 :: SetModelId m1 :: SetSelectedProvider B :: edits
             ++ [SetSelectedProvider A])
        = Settled s'
    ∧ selectedProvider s' = A
    ∧ apiKey s' = JString k1 ∧ modelId s' = JString m1.
Proof.
  intros Hnt Hr <- HB Hsafe Hne Hed Hm1 Hfuel.
  destruct fuel as [|[|fuel]]; [lia..|].
  by apply round_trip_recorded.
Qed.

Lemma switch_restore_round_trip_witness :
  ∃ s', dispatch_all Demo.two Language 2 Demo.mounted
          (SetApiKey "k1" :: SetModelId "m1" :: SetSelectedProvider "Google"
             :: [SetApiKey "sk-2"; SetModelId "custom-model"; SetApiKey ""]
             ++ [SetSelectedProvider "OpenAI"])
        = Settled s'
    ∧ selectedProvider s' = "OpenAI" ∧ apiKey s' = JString "k1"
    ∧ modelId s' = JString "m1".
Proof.
  apply (switch_restore_round_trip Demo.two Language Demo.mounted
           "OpenAI" "Google" "k1" "m1"
           [SetApiKey "sk-2"; SetModelId "custom-model"; SetApiKey ""] 2).
  - apply demo_two_never_throws.
  - exact (reach_mount Demo.two Language 2 Demo.mounted demo_mounted).
  - reflexivity.
  - vm_compute. eauto.
  - split; right; reflexivity.
  - discriminate.
  - repeat constructor.
  - discriminate.
  - lia.
Defined.

(** C1 as stated fails twice.  With a listed provider named "valueOf" as
    [B], the hook mounts and records "k1" and "m1" for OpenAI, and the
    switch to [B] ends the run: the dictionary read of the restore effect
    gives the inherited function, React runs it as an updater, and it
    throws.  And a recorded model id that is the empty string does not come
    back: after [setModelId("")] on OpenAI and a visit to Google, the
    switch back gives "gpt-4o". *)
Lemma switch_restore_round_trip_counterexample :
  (λ s, (selectedProvider s, apiKey s, modelId s))
    <$> state_of (run Demo.with_valueOf Language 2
                    [SetApiKey "k1"; SetModelId "m1"])
  = Some ("OpenAI", JString "k1", JString "m1")
  ∧ is_Some (providerMap Demo.with_valueOf !! "valueOf")
  ∧ run Demo.with_valueOf Language 2
      [SetApiKey "k1"; SetModelId "m1"; SetSelectedProvider "valueOf"]
    = Crashed TypeErrorToObject
  ∧ (λ s, (selectedProvider s, apiKey s, modelId s))
      <$> state_of (run Demo.two Language 2
                      [SetApiKey "k1"; SetModelId "";
                       SetSelectedProvider "Google";
                       SetSelectedProvider "OpenAI"])
    = Some ("OpenAI", JString "k1", JString "gpt-4o").
Proof. split_and!; [by vm_compute|vm_compute; eauto|by vm_compute..]. Qed.

(** The round trip is a property of the hook. Inside the default shell the
    toggle effect can replace a restored model id: OpenAI's "o4-mini" is
    remembered, a custom id is typed for Google, and on the way back the
    flag falls to false, which snaps the model id to "gpt-4o". *)
Example shell_snaps_restored_id :
  (λ ps, (selectedProvider (hook ps), modelId (hook ps)))
    <$> state_of (picker_run Demo.two Language 4
                    [Edit (SetModelId "o4-mini");
                     Edit (SetSelectedProvider "Google"); Toggle;
                     Edit (SetModelId "custom");
                     Edit (SetSelectedProvider "OpenAI")])
  = Some ("OpenAI", JString "gpt-4o").
Proof. vm_compute. done. Qed.







(** C4, as the code has it. A [setApiKey] (a [setModelId]) whose value
    differs from the current one settles with that value stored under the
    selected provider's name in [apiKeyMap] (in [preferredModelMap]); one
    that repeats the current value changes nothing at all. Either way the
    selected provider stays, the other map is untouched, and no entry of
    another provider changes in either map. *)
Theorem persistence_on_edit {Model : Type}
    (providers : list (ProviderDescriptor Model)) (modelType : ModelType)
    (s : State Model) (ev : Event) (fuel : nat) :
  never_throws providers modelType →
  is_Some (providerMap providers !! selectedProvider s) →
  is_edit ev →
  1 ≤ fuel →
  ∃ s', dispatch providers modelType fuel s ev = Settled s'
    ∧ selectedProvider s' = selectedProvider s
    ∧ match ev with
      | SetApiKey v =>
          apiKey s' = JString v
          ∧ preferredModelMap s' = preferredModelMap s
          ∧ (JString v ≠ apiKey s →
             apiKeyMap s' = <[selectedProvider s := JString v]> (apiKeyMap s))
          ∧ (JString v = apiKey s → s' = s)
      | SetModelId x =>
          modelId s' = JString x
          ∧ apiKeyMap s' = apiKeyMap s
          ∧ (JString x ≠ modelId s →
             preferredModelMap s'
             = <[selectedProvider s := JString x]> (preferredModelMap s))
          ∧ (JString x = modelId s → s' = s)
      | SetSelectedProvider _ => True
      end
    ∧ ∀ B, B ≠ selectedProvider s →
        apiKeyMap s' !! B = apiKeyMap s !! B
        ∧ preferredModelMap s' !! B = preferredModelMap s !! B.
Proof.
  intros Hnt [e He] Hed Hfuel. destruct fuel as [|fuel]; [lia|].
  destruct ev as [v|x|]; [| |done].
  - destruct (decide (JString v = apiKey s)) as [Hv|Hv].
    + exists s. rewrite dispatch_setApiKey_same by done. done.
    + destruct (getModel_known _ modelType _ _ (JString v) (modelId s) Hnt He)
        as [h Hh].
      eexists. rewrite (dispatch_setApiKey _ _ _ _ _ h) by done. simpl.
      split_and!; try done.
      intros B HB. simpl. split; [|done]. by rewrite lookup_insert_ne.
  - destruct (decide (JString x = modelId s)) as [Hx|Hx].
    + exists s. rewrite dispatch_setModelId_same by done. done.
    + destruct (getModel_known _ modelType _ _ (apiKey s) (JString x) Hnt He)
        as [h Hh].
      eexists. rewrite (dispatch_setModelId _ _ _ _ _ h) by done. simpl.
      split_and!; try done.
      intros B HB. simpl. split; [done|]. by rewrite lookup_insert_ne.
Qed.

Lemma persistence_on_edit_witness :
  ∃ s', dispatch Demo.two Language 1 Demo.at_google (SetApiKey "sk-2")
        = Settled s'
    ∧ selectedProvider s' = "Google"
    ∧ (apiKey s' = JString "sk-2"
       ∧ preferredModelMap s' = preferredModelMap Demo.at_google
       ∧ (JString "sk-2" ≠ JString "" →
          apiKeyMap s'
          = <["Google" := JString "sk-2"]> (apiKeyMap Demo.at_google))
       ∧ (JString "sk-2" = JString "" → s' = Demo.at_google))
    ∧ ∀ B, B ≠ "Google" →
        apiKeyMap s' !! B = apiKeyMap Demo.at_google !! B
        ∧ preferredModelMap s' !! B = preferredModelMap Demo.at_google !! B.
Proof.
  apply (persistence_on_edit Demo.two Language Demo.at_google
           (SetApiKey "sk-2") 1).
  - apply demo_two_never_throws.
  - vm_compute. eauto.
  - exact I.
  - lia.
Defined.

(** C4 as stated fails for a call that repeats the current value. After
    the first visit to Google the credential is "" and [apiKeyMap] has no
    entry for Google; [setApiKey("")] then writes nothing. *)
Lemma persistence_on_edit_counterexample :
  run Demo.two Language 2 [SetSelectedProvider "Google"]
  = Settled Demo.at_google
  ∧ dispatch Demo.two Language 2 Demo.at_google (SetApiKey "")
    = Settled Demo.at_google
  ∧ apiKeyMap Demo.at_google !! "Google" = None.
Proof. vm_compute. done. Qed.

(** C5, as the code has it. After a [setSelectedProvider] that changes the
    provider to a listed one whose dictionary reads see own properties
    only, with an SDK that does not throw, the recomputation effect runs
    in the first commit, on the render that pairs the new provider with
    the old credential and the old model id, and the handle it builds is
    the [model] of the next render, next to the restored credential and
    model id. The run settles with a handle built from the new provider
    and the restored values. *)
Theorem recomputation_after_switch {Model : Type}
    (providers : list (ProviderDescriptor Model)) (modelType : ModelType)
    (s : State Model) (P : string) (fuel : nat) :
  never_throws providers modelType →
  is_Some (providerMap providers !! P) →
  safe_target s P →
  P ≠ selectedProvider s →
  2 ≤ fuel →
  ∃ h1 s1 v1 s',
    getModel providers modelType P (apiKey s) (modelId s) = Ok h1
    ∧ effect_model providers modelType (setSelectedProvider P s)
        (start (setSelectedProvider P s))
      = Ok (start (setModel h1 (setSelectedProvider P s)))
    ∧ hook_commit providers modelType (Some s) (setSelectedProvider P s)
      = Ok s1
    ∧ apiKey s1 = restore_key (apiKeyMap s) P
    ∧ modelId s1 = restore_id providers (preferredModelMap s) P
    ∧ render providers modelType s1 = Ok v1
    ∧ view_model v1 = h1
    ∧ dispatch providers modelType fuel s (SetSelectedProvider P) = Settled s'
    ∧ apiKey s' = apiKey s1 ∧ modelId s' = modelId s1
    ∧ getModel providers modelType P (apiKey s') (modelId s')
      = Ok (model s').
Proof.
  intros Hnt HP Hsafe Hne Hfuel. destruct fuel as [|[|fuel]]; [lia..|].
  destruct HP as [e He].
  destruct (getModel_known _ modelType _ _ (apiKey s) (modelId s) Hnt He)
    as [h1 Hh1].
  destruct (dispatch_switch providers modelType fuel s P Hnt) as (h & Hh & Hd);
    [done..|].
  eexists h1, _, _, _. split_and!.
  - done.
  - by apply effect_model_getModel.
  - by apply commit_switch.
  - done.
  - done.
  - unfold render. simpl. rewrite Hh. done.
  - done.
  - done.
  - done.
  - done.
  - done.
Qed.

Lemma recomputation_after_switch_witness :
  ∃ h1 s1 v1 s',
    getModel Demo.two Language "Google" (JString "sk-1") (JString "gpt-4o")
    = Ok h1
    ∧ effect_model Demo.two Language
        (setSelectedProvider "Google" Demo.with_key)
        (start (setSelectedProvider "Google" Demo.with_key))
      = Ok (start (setModel h1 (setSelectedProvider "Google" Demo.with_key)))
    ∧ hook_commit Demo.two Language (Some Demo.with_key)
        (setSelectedProvider "Google" Demo.with_key)
      = Ok s1
    ∧ apiKey s1 = restore_key (apiKeyMap Demo.with_key) "Google"
    ∧ modelId s1
      = restore_id Demo.two (preferredModelMap Demo.with_key) "Google"
    ∧ render Demo.two Language s1 = Ok v1
    ∧ view_model v1 = h1
    ∧ dispatch Demo.two Language 2 Demo.with_key (SetSelectedProvider "Google")
      = Settled s'
    ∧ apiKey s' = apiKey s1 ∧ modelId s' = modelId s1
    ∧ getModel Demo.two Language "Google" (apiKey s') (modelId s')
      = Ok (model s').
Proof.
  apply (recomputation_after_switch Demo.two Language Demo.with_key
           "Google" 2).
  - apply demo_two_never_throws.
  - vm_compute. eauto.
  - split; right; reflexivity.
  - discriminate.
  - lia.
Defined.

(** C5 as stated fails: with OpenAI selected and credential "sk-1", the
    first commit after [setSelectedProvider("Google")] builds the handle of
    Google with OpenAI's credential and OpenAI's model id, and the render
    that follows returns it together with the restored fields. *)
Lemma recomputation_after_switch_counterexample :
  run Demo.two Language 2 [SetApiKey "sk-1"] = Settled Demo.with_key
  ∧ hook_commit Demo.two Language (Some Demo.with_key)
      (setSelectedProvider "Google" Demo.with_key)
    = Ok {| apiKeyMap := apiKeyMap Demo.with_key;
            preferredModelMap := preferredModelMap Demo.with_key;
            selectedProvider := "Google"; apiKey := JString "";
            modelId := JString "gemini-2.0-flash";
            model := ("Google", JString "sk-1", JString "gpt-4o") |}.
Proof. vm_compute. done. Qed.

(** C7, as the code has it. Nothing catches a failure of the constructor or
    of the accessor. When an event leads to a state for which one of them
    throws, the render of that state throws in [getModel] and the run ends
    crashed with that error; the recomputation effect, run on such a state,
    throws the same error. The effect keeps the previous handle only when
    the selected name has no entry in [providerMap]. *)
Theorem construction_failure_propagates {Model : Type}
    (providers : list (ProviderDescriptor Model)) (modelType : ModelType)
    (s : State Model) (ev : Event) (err : Error) (fuel : nat) :
  hook_same_deps s (apply_event ev s) = false →
  getModel providers modelType (selectedProvider (apply_event ev s))
    (apiKey (apply_event ev s)) (modelId (apply_event ev s)) = Throw err →
  1 ≤ fuel →
  dispatch providers modelType fuel s ev = Crashed err
  ∧ (is_Some (providerMap providers !! selectedProvider (apply_event ev s)) →
     ∀ pending,
       effect_model providers modelType (apply_event ev s) pending
       = Throw err)
  ∧ (∀ c pending,
       providerMap providers !! selectedProvider c = None →
       effect_model providers modelType c pending = Ok pending).
Proof.
  intros Hd Hg Hfuel. destruct fuel as [|fuel]; [lia|]. split_and!.
  - unfold dispatch, after_event. rewrite Hd. simpl.
    by rewrite (hook_commit_throw providers modelType (Some s)
                  (apply_event ev s) err Hg).
  - intros Hk pending. by apply effect_model_throw.
  - intros c pending Hc. by apply effect_model_unknown.
Qed.

Lemma construction_failure_propagates_witness :
  dispatch Demo.picky_openai Language 1 Demo.picky_mounted (SetApiKey "bad")
  = Crashed (ProviderError "invalid api key")
  ∧ (is_Some (providerMap Demo.picky_openai !! "OpenAI") →
     ∀ pending,
       effect_model Demo.picky_openai Language
         (setApiKey (JString "bad") Demo.picky_mounted) pending
       = Throw (ProviderError "invalid api key"))
  ∧ (∀ c pending,
       providerMap Demo.picky_openai !! selectedProvider c = None →
       effect_model Demo.picky_openai Language c pending = Ok pending).
Proof.
  apply (construction_failure_propagates Demo.picky_openai Language
           Demo.picky_mounted (SetApiKey "bad")
           (ProviderError "invalid api key") 1).
  - reflexivity.
  - reflexivity.
  - lia.
Defined.

(** C7 as stated fails: with an SDK that rejects the credential "bad", the
    hook mounts, and [setApiKey("bad")] ends the run with the SDK's error;
    no state with the previous handle is left. *)
Lemma construction_failure_counterexample :
  mount Demo.picky_openai Language 2 = Settled Demo.picky_mounted
  ∧ model Demo.picky_mounted = ("OpenAI", JString "", JString "gpt-4o")
  ∧ run Demo.picky_openai Language 2 [SetApiKey "bad"]
    = Crashed (ProviderError "invalid api key").
Proof. vm_compute. done. Qed.

(** C9, as the code has it. [setSelectedProvider(name)] with a name that
    is not in [providerMap] is accepted: the setter stores the name. The
    render that follows throws in [getModel], reading the accessor of the
    undefined provider, so the run ends crashed before any effect of that
    render runs. The restore effect only ever runs after a render that
    succeeded, and then it does not throw: its dereference of a missing
    entry is not reached. *)
Theorem unknown_provider_fails_in_render {Model : Type}
    (providers : list (ProviderDescriptor Model)) (modelType : ModelType)
    (s : State Model) (unknown : string) (fuel : nat) :
  providerMap providers !! unknown = None →
  unknown ≠ selectedProvider s →
  1 ≤ fuel →
  selectedProvider (apply_event (SetSelectedProvider unknown) s) = unknown
  ∧ render providers modelType (apply_event (SetSelectedProvider unknown) s)
    = Throw (TypeError (accessor_name modelType))
  ∧ dispatch providers modelType fuel s (SetSelectedProvider unknown)
    = Crashed (TypeError (accessor_name modelType))
  ∧ (∀ c v pending,
       render providers modelType c = Ok v →
       ∃ pending', effect_restore providers c pending = Ok pending').
Proof.
  intros Hu Hne Hfuel. destruct fuel as [|fuel]; [lia|].
  assert (getModel providers modelType unknown (apiKey s) (modelId s)
          = Throw (TypeError (accessor_name modelType))) as Hg
    by (by apply getModel_unknown).
  split_and!.
  - done.
  - unfold render. simpl. by rewrite Hg.
  - by apply dispatch_unknown.
  - intros c v pending Hr. unfold render in Hr.
    destruct (getModel providers modelType (selectedProvider c) (apiKey c)
                (modelId c)) as [h|] eqn:Hh; [|done].
    apply getModel_Ok_known in Hh.
    by apply effect_restore_after_render.
Qed.

Lemma unknown_provider_fails_in_render_witness :
  selectedProvider (apply_event (SetSelectedProvider "Mistral") Demo.mounted)
  = "Mistral"
  ∧ render Demo.two Language
      (apply_event (SetSelectedProvider "Mistral") Demo.mounted)
    = Throw (TypeError (accessor_name Language))
  ∧ dispatch Demo.two Language 1 Demo.mounted (SetSelectedProvider "Mistral")
    = Crashed (TypeError (accessor_name Language))
  ∧ (∀ c v pending,
       render Demo.two Language c = Ok v →
       ∃ pending', effect_restore Demo.two c pending = Ok pending').
Proof.
  apply (unknown_provider_fails_in_render Demo.two Language Demo.mounted
           "Mistral" 1).
  - reflexivity.
  - discriminate.
  - lia.
Defined.

(** C9 as stated fails: over the two demo providers no unknown name makes
    a run end in the restore effect's dereference of a missing entry (the
    TypeError reading [models]); for "Mistral" the run ends in the
    TypeError reading [languageModel], thrown by the render. *)
Lemma unknown_provider_counterexample :
  dispatch Demo.two Language 2 Demo.mounted (SetSelectedProvider "Mistral")
  = Crashed (TypeError "languageModel")
  ∧ ¬ ∃ unknown fuel,
        providerMap Demo.two !! unknown = None
        ∧ dispatch Demo.two Language fuel Demo.mounted
            (SetSelectedProvider unknown)
          = Crashed (TypeError "models").
Proof.
  split; [by vm_compute|].
  intros (unknown & fuel & Hu & Hd).
  destruct fuel as [|fuel].
  - unfold dispatch, after_event in Hd.
    destruct (hook_same_deps _ _); simpl in Hd; discriminate.
  - assert (unknown ≠ selectedProvider Demo.mounted) as Hne.
    { intros ->. vm_compute in Hu. discriminate. }
    rewrite (dispatch_unknown Demo.two Language fuel Demo.mounted unknown)
      in Hd by done.
    discriminate.
Qed.

(** C6, as the code has it. A click on the toggle while the picker shows
    the list only switches to the free-text input: nothing but the flag
    changes. A click while it shows the free-text input switches to the
    list and sets the model id to the first known model id of the selected
    provider ([undefined] when it has none). *)
Theorem toggle_side_effect {Model : Type}
    (providers : list (ProviderDescriptor Model)) (modelType : ModelType)
    (ps : PickerState Model) (fuel : nat) :
  never_throws providers modelType →
  is_Some (providerMap providers !! selectedProvider (hook ps)) →
  3 ≤ fuel →
  ∃ ps', picker_dispatch providers modelType fuel ps Toggle = Settled ps'
    ∧ selectedProvider (hook ps') = selectedProvider (hook ps)
    ∧ apiKey (hook ps') = apiKey (hook ps)
    ∧ (useCustomModelInput ps = false →
       ps' = setUseCustomModelInput true ps)
    ∧ (useCustomModelInput ps = true →
       modelId (hook ps')
       = js_head (modelIdList providers (selectedProvider (hook ps)))
       ∧ (modelIdList providers (selectedProvider (hook ps)) ≠ [] →
          useCustomModelInput ps' = false)).
Proof.
  intros Hnt Hk Hfuel. destruct fuel as [|[|[|fuel]]]; [lia..|].
  destruct (useCustomModelInput ps) eqn:Hf.
  - destruct (picker_toggle_to_list providers modelType fuel ps Hnt Hk Hf)
      as (h' & f' & Hd & Hm & Hsp & Hkey & _ & Hl).
    eexists. split; [done|]. simpl. split_and!; [done..| |]; done.
  - destruct Hk as [e He].
    destruct (getModel_known providers modelType _ _ (apiKey (hook ps))
                (modelId (hook ps)) Hnt He) as [v Hv].
    eexists. rewrite (picker_toggle_to_custom _ _ _ _ v) by done.
    split; [done|]. simpl. split_and!; done.
Qed.

Lemma toggle_side_effect_witness :
  ∃ ps', picker_dispatch Demo.two Language 3 Demo.picker_mounted Toggle
         = Settled ps'
    ∧ selectedProvider (hook ps') = "OpenAI"
    ∧ apiKey (hook ps') = JString ""
    ∧ (false = false → ps' = setUseCustomModelInput true Demo.picker_mounted)
    ∧ (false = true →
       modelId (hook ps') = js_head (modelIdList Demo.two "OpenAI")
       ∧ (modelIdList Demo.two "OpenAI" ≠ [] →
          useCustomModelInput ps' = false)).
Proof.
  apply (toggle_side_effect Demo.two Language Demo.picker_mounted 3).
  - apply demo_two_never_throws.
  - vm_compute. eauto.
  - lia.
Defined.

(** C6 as stated fails in both directions. In list mode with "o4-mini"
    selected, the click leaves the model id at "o4-mini" and does not snap
    it to "gpt-4o". In custom mode with "my-model" typed, the click away
    from custom mode replaces the model id by "gpt-4o". *)
Lemma toggle_side_effect_counterexample :
  (λ ps, (modelId (hook ps), useCustomModelInput ps))
    <$> state_of (picker_run Demo.two Language 3 [Edit (SetModelId "o4-mini")])
  = Some (JString "o4-mini", false)
  ∧ (λ ps, (modelId (hook ps), useCustomModelInput ps))
      <$> state_of (picker_run Demo.two Language 3
                      [Edit (SetModelId "o4-mini"); Toggle])
    = Some (JString "o4-mini", true)
  ∧ (λ ps, (modelId (hook ps), useCustomModelInput ps))
      <$> state_of (picker_run Demo.two Language 3
                      [Edit (SetModelId "my-model")])
    = Some (JString "my-model", true)
  ∧ (λ ps, (modelId (hook ps), useCustomModelInput ps))
      <$> state_of (picker_run Demo.two Language 3
                      [Edit (SetModelId "my-model"); Toggle])
    = Some (JString "gpt-4o", false).
Proof. vm_compute. done. Qed.



(** The condition on the call in C8 is needed for the flag only.  With
    providers A (knows "a") and B (knows "b"): type "a" as a custom id for
    B, go back to A, click the toggle, switch to B. B is selected, the
    model id is the remembered "a", which B does not know, and the flag is
    false.  The picker then shows the list, which cannot emit "a"; a
    [setModelId("a")] from elsewhere would change nothing, the flag
    included. *)
Example stale_flag_after_switch :
  (λ ps, (selectedProvider (hook ps), modelId (hook ps),
          useCustomModelInput ps))
    <$> state_of (picker_run Demo.ab Language 3
                    [Edit (SetSelectedProvider "B"); Toggle;
                     Edit (SetModelId "a"); Edit (SetSelectedProvider "A");
                     Toggle; Edit (SetSelectedProvider "B")])
  = Some ("B", JString "a", false)
  ∧ ("a" ∉ modelIdList Demo.ab "B")
  ∧ (λ ps, (selectedProvider (hook ps), modelId (hook ps),
            useCustomModelInput ps))
      <$> state_of (picker_run Demo.ab Language 3
                      [Edit (SetSelectedProvider "B"); Toggle;
                       Edit (SetModelId "a"); Edit (SetSelectedProvider "A");
                       Toggle; Edit (SetSelectedProvider "B");
                       Edit (SetModelId "a")])
    = Some ("B", JString "a", false).
Proof.
  split_and!; [by vm_compute| |by vm_compute].
  vm_compute. intros H. apply elem_of_cons in H as [H|H]; [discriminate|].
  by apply elem_of_nil in H.
Qed.

(** C10. In a state whose selected provider name is not a key of
    [providerMap], the expression of line 139,
    [providerMap.get(selectedProvider)?.models || []], is the empty list,
    and the restore effect, run on that state when the model-id dictionary
    gives nothing truthy for the name, throws.  But the hook does not
    return the list in such a state: line 78 calls [getModel] in every
    render, and [getModel] dereferences the missing provider without the
    guard that line 139 and the first effect (line 85) have, so the render
    throws before it reaches line 139. *)
Theorem modelIdList_unknown_provider {Model : Type}
    (providers : list (ProviderDescriptor Model)) (modelType : ModelType)
    (s : State Model) :
  providerMap providers !! selectedProvider s = None →
  modelIdList providers (selectedProvider s) = []
  ∧ render providers modelType s
    = Throw (TypeError (accessor_name modelType))
  ∧ (∀ pending, effect_model providers modelType s pending = Ok pending)
  ∧ (truthy_read (read (preferredModelMap s) (selectedProvider s)) = false →
     ∀ pending,
       effect_restore providers s pending = Throw (TypeError "models")).
Proof.
  intros Hu. split_and!.
  - unfold modelIdList. by rewrite Hu.
  - unfold render. by rewrite (getModel_unknown providers modelType _ _ _ Hu).
  - intros pending. by apply effect_model_unknown.
  - intros Ht pending. unfold effect_restore. by rewrite Ht, Hu.
Qed.

Lemma modelIdList_unknown_provider_witness :
  modelIdList Demo.two "Mistral" = []
  ∧ render Demo.two Language (setSelectedProvider "Mistral" Demo.mounted)
    = Throw (TypeError (accessor_name Language))
  ∧ (∀ pending,
       effect_model Demo.two Language
         (setSelectedProvider "Mistral" Demo.mounted) pending
       = Ok pending)
  ∧ (truthy_read (read (preferredModelMap Demo.mounted) "Mistral") = false →
     ∀ pending,
       effect_restore Demo.two (setSelectedProvider "Mistral" Demo.mounted)
         pending
       = Throw (TypeError "models")).
Proof.
  apply (modelIdList_unknown_provider Demo.two Language
           (setSelectedProvider "Mistral" Demo.mounted)).
  reflexivity.
Defined.

(** At the failing input of C10: two listed providers, and "Mistral"
    selected through the hook's [setSelectedProvider].  No render of the
    hook returns, so no [modelIdList] is returned. *)
Example unknown_provider_returns_nothing :
  providerMap Demo.two !! "Mistral" = None
  ∧ dispatch Demo.two Language 2 Demo.mounted (SetSelectedProvider "Mistral")
    = Crashed (TypeError "languageModel")
  ∧ ¬ ∃ v, render Demo.two Language
             (setSelectedProvider "Mistral" Demo.mounted) = Ok v
           ∧ view_modelIdList v = [].
Proof.
  split_and!; [by vm_compute..|].
  intros (v & Hv & _). vm_compute in Hv. discriminate.
Qed.

(** * Further lemmas *)

Section MoreHookFacts.
Context {Model : Type}.
Variable providers : list (ProviderDescriptor Model).
Variable modelType : ModelType.

Lemma foldl_insert_lookup (acc : gmap string (ProviderEntry Model)) l n :
  foldl (λ pm p, <[name p := {| entry_provider := provider p;
                                entry_models := models p |}]> pm) acc l !! n
  = match last (filter (λ p, name p = n) l) with
    | Some p => Some (entry_of p)
    | None => acc !! n
    end.
Proof.
  revert acc. induction l as [|p l IH]; intros acc; simpl; [done|].
  rewrite IH. rewrite filter_cons. case_decide as Hn.
  - rewrite last_cons. destruct (last (filter _ l)); [done|].
    by rewrite <- Hn, lookup_insert_eq.
  - destruct (last (filter _ l)); [done|]. by rewrite lookup_insert_ne.
Qed.

Lemma providerMap_unique p :
  NoDup (name <$> providers) → p ∈ providers →
  providerMap providers !! name p = Some (entry_of p).
Proof.
  unfold providerMap. generalize (∅ : gmap string (ProviderEntry Model)).
  induction providers as [|q l IH]; intros acc Hnd Hp; [by apply elem_of_nil in Hp|].
  rewrite fmap_cons in Hnd. apply NoDup_cons in Hnd as [Hq Hnd].
  simpl. apply elem_of_cons in Hp as [->|Hp].
  - rewrite foldl_insert_notin by done. by rewrite lookup_insert_eq.
  - by apply IH.
Qed.

(** *** Whatever the names: frame, growth, current handle *)

Lemma hook_commit_follows c0 prev cur next :
  follows c0 cur →
  hook_commit providers modelType prev cur = Ok next →
  follows c0 next.
Proof.
  intros [Hsp Hfr] Hc.
  destruct (hook_commit_Ok_inv _ _ _ _ _ Hc) as (v & k & x & _ & -> & _).
  split.
  - by rewrite commit_to_selectedProvider.
  - intros B. destruct (Hfr B) as (H1 & H2 & H3).
    rewrite commit_to_apiKeyMap, commit_to_preferredModelMap.
    split_and!.
    + intros HB. destruct (H1 HB) as [<- <-].
      split; destruct (changed _ _ _); try done;
        rewrite lookup_insert_ne; congruence.
    + intros HB. destruct (changed apiKey prev cur); [|auto].
      apply lookup_insert_is_Some'. right. auto.
    + intros HB. destruct (changed modelId prev cur); [|auto].
      apply lookup_insert_is_Some'. right. auto.
Qed.

Lemma settle_frame fuel prev cur s' :
  settle (hook_commit providers modelType) hook_same_deps fuel prev cur
  = Settled s' →
  follows cur s'.
Proof.
  apply (settle_invariant _ _ (λ _ c, follows cur c) (follows cur)).
  - intros prev' cur' next Hf Hc.
    pose proof (hook_commit_follows _ _ _ _ Hf Hc). done.
  - split; [done|]. intros B. split_and!; done.
Qed.

Lemma hook_commit_handle prev cur next :
  handle_inv providers modelType prev cur →
  hook_commit providers modelType prev cur = Ok next →
  hook_same_deps cur next = true → handle_current providers modelType next.
Proof.
  intros HL Hc Hsame.
  destruct (hook_commit_Ok_inv _ _ _ _ _ Hc) as (v & k & x & Hv & -> & _).
  unfold hook_same_deps in Hsame.
  apply andb_prop in Hsame as [Hsame Hm]. apply andb_prop in Hsame as [Hsp Hk].
  apply bool_decide_eq_true_1 in Hsp, Hk, Hm.
  unfold handle_current. rewrite <- Hsp, <- Hk, <- Hm. rewrite Hv. f_equal.
  clear Hsp Hk Hm. rewrite commit_to_model.
  destruct (changed apiKey prev cur) eqn:Ek; [done|].
  destruct (changed selectedProvider prev cur) eqn:Es; [done|].
  destruct (changed modelId prev cur) eqn:Em; [done|]. simpl.
  apply changed_false in Ek as (p & -> & Ek).
  apply changed_false in Es as (p' & [= <-] & Es).
  apply changed_false in Em as (p' & [= <-] & Em).
  simpl in HL. unfold hook_same_deps, handle_current in HL.
  rewrite !bool_decide_eq_true_2 in HL by done.
  specialize (HL eq_refl). rewrite Hv in HL. by injection HL.
Qed.

Lemma settle_handle fuel prev cur s' :
  handle_inv providers modelType prev cur →
  settle (hook_commit providers modelType) hook_same_deps fuel prev cur
  = Settled s' →
  handle_current providers modelType s'.
Proof.
  apply (settle_invariant _ _ (handle_inv providers modelType)
           (handle_current providers modelType)).
  intros prev' cur' next HL Hc. split.
  - by apply (hook_commit_handle prev' cur').
  - simpl. by apply (hook_commit_handle prev' cur').
Qed.

Lemma reachable_handle s :
  reachable providers modelType s → handle_current providers modelType s.
Proof.
  induction 1 as [fuel s Hm | fuel s ev s' Hr IH Hd].
  - unfold mount in Hm.
    destruct (initial_state providers modelType) as [s0|]; [|done].
    by apply (settle_handle fuel None s0).
  - unfold dispatch, after_event in Hd.
    destruct (hook_same_deps s (apply_event ev s)) eqn:Hsame.
    + by injection Hd as <-.
    + apply (settle_handle fuel (Some s) (apply_event ev s)); [|done].
      simpl. by rewrite Hsame.
Qed.

Lemma same_deps_sets ev (s : State Model) :
  hook_same_deps s (apply_event ev s) = true ↔ sets ev s.
Proof.
  unfold hook_same_deps. destruct ev; simpl;
    rewrite !andb_true_iff, !bool_decide_eq_true;
    (split; [by intros [[? ?] ?] | by intros <-]).
Qed.

Lemma hook_commit_keeps ev prev cur next :
  keeps ev prev cur →
  hook_commit providers modelType prev cur = Ok next →
  sets ev next ∧ keeps ev (Some cur) next.
Proof.
  intros [Hset Hsp] Hc.
  destruct (hook_commit_Ok_inv _ _ _ _ _ Hc) as (v & k & x & _ & -> & Hr).
  assert (changed selectedProvider (Some cur) (commit_to prev cur v k x)
          = false) as Hstay.
  { simpl. rewrite commit_to_selectedProvider.
    by rewrite bool_decide_eq_false_2 by (intros Hn; by apply Hn). }
  assert (sets ev (commit_to prev cur v k x)) as Hset'.
  { destruct ev; simpl in *.
    - rewrite commit_to_apiKey, Hsp. done.
    - rewrite commit_to_modelId, Hsp. done.
    - by rewrite commit_to_selectedProvider. }
  split; [done|]. split; [done|]. by destruct ev.
Qed.

Lemma dispatch_sets fuel s ev s' :
  dispatch providers modelType fuel s ev = Settled s' → sets ev s'.
Proof.
  unfold dispatch, after_event.
  destruct (hook_same_deps s (apply_event ev s)) eqn:Hsame.
  - intros [= <-]. by apply same_deps_sets.
  - apply (settle_invariant _ _ (keeps ev) (sets ev)).
    + intros prev cur next Hk Hc.
      destruct (hook_commit_keeps _ _ _ _ Hk Hc). done.
    + split; [by destruct ev|]. destruct ev; simpl; try done;
        by rewrite bool_decide_eq_false_2 by (intros Hn; by apply Hn).
Qed.

(** *** With plain names: types, and no crash *)

Lemma restore_key_string (km : gmap string JsValue) P :
  map_Forall (λ _ v, is_string v) km → is_string (restore_key km P).
Proof.
  intros Hkm. unfold restore_key.
  destruct (km !! P) as [w|] eqn:Hw; simpl; [|by exists ""].
  destruct (truthy w); [|by exists ""]. by apply (Hkm P).
Qed.

Lemma restore_key_default (km : gmap string JsValue) P :
  map_Forall (λ _ v, is_string v) km →
  restore_key km P = default (JString "") (km !! P).
Proof.
  intros Hkm. unfold restore_key.
  destruct (km !! P) as [w|] eqn:Hw; simpl; [|done].
  destruct (Hkm P w Hw) as [t ->]. simpl.
  case_bool_decide as Ht; [done|]. by rewrite Ht.
Qed.

Lemma expected_js_head l : expected (js_head l).
Proof. destruct l; [by left|right; by eexists]. Qed.

Lemma restore_id_expected (pm : gmap string JsValue) P :
  map_Forall (λ _ v, expected v) pm → expected (restore_id providers pm P).
Proof.
  intros Hpm. unfold restore_id.
  destruct (pm !! P) as [w|] eqn:Hw; simpl; [|apply expected_js_head].
  destruct (truthy w); [|apply expected_js_head]. by apply (Hpm P).
Qed.

Lemma hook_commit_typed prev cur next :
  plain_names providers →
  well_typed cur →
  hook_commit providers modelType prev cur = Ok next →
  well_typed next.
Proof.
  intros Hpl (Hk & Hkm & Hx & Hpm) Hc.
  destruct (hook_commit_Ok_inv _ _ _ _ _ Hc) as (v & k & x & Hv & -> & Hr).
  pose proof (Hpl _ (getModel_Ok_known _ _ _ _ _ _ Hv)) as Hplain.
  unfold well_typed.
  rewrite commit_to_apiKey, commit_to_modelId, commit_to_apiKeyMap,
    commit_to_preferredModelMap.
  split_and!.
  - destruct (changed selectedProvider prev cur); [|done].
    destruct Hr as [Hr _].
    rewrite restored_own_or_plain in Hr by (by right).
    injection Hr as <-. by apply restore_key_string.
  - destruct (changed apiKey prev cur); [|done].
    by apply map_Forall_insert_2.
  - destruct (changed selectedProvider prev cur); [|done].
    destruct Hr as [_ Hr].
    rewrite restored_own_or_plain in Hr by (by right).
    injection Hr as <-. by apply restore_id_expected.
  - destruct (changed modelId prev cur); [|done].
    by apply map_Forall_insert_2.
Qed.

Lemma reachable_typed s :
  plain_names providers →
  reachable providers modelType s → well_typed s.
Proof.
  intros Hpl. induction 1 as [fuel s Hm | fuel s ev s' Hr IH Hd].
  - unfold mount in Hm.
    destruct (initial_state providers modelType) as [s0|] eqn:Hi; [|done].
    revert Hm.
    apply (settle_invariant _ _ (λ _ c, well_typed c) well_typed).
    + intros prev cur next Ht Hc.
      pose proof (hook_commit_typed _ _ _ Hpl Ht Hc). done.
    + unfold initial_state, initial_state_from in Hi.
      destruct providers as [|p0 rest]; [done|]. simpl in Hi.
      destruct (getModel _ _ _ _ _); [|done]. injection Hi as <-.
      split_and!; simpl.
      * by exists "".
      * apply map_Forall_empty.
      * apply expected_js_head.
      * apply map_Forall_empty.
  - unfold dispatch, after_event in Hd.
    destruct (hook_same_deps s (apply_event ev s)) eqn:Hsame.
    + by injection Hd as <-.
    + revert Hd.
      apply (settle_invariant _ _ (λ _ c, well_typed c) well_typed).
      * intros prev cur next Ht Hc.
        pose proof (hook_commit_typed _ _ _ Hpl Ht Hc). done.
      * destruct IH as (Hk & Hkm & Hx & Hpm).
        destruct ev; split_and!; simpl; try done;
          first [by eexists | right; by eexists].
Qed.

Lemma dispatch_settles fuel s ev :
  never_throws providers modelType →
  plain_names providers →
  is_Some (providerMap providers !! selectedProvider s) →
  known_target providers ev →
  ∃ s', dispatch providers modelType (S (S fuel)) s ev = Settled s'.
Proof.
  intros Hnt Hpl Hk Hev. destruct ev as [v|x|P].
  - destruct (dispatch_edit providers modelType (S fuel) s (SetApiKey v)
                Hnt Hk I) as (s' & Hd & _). eauto.
  - destruct (dispatch_edit providers modelType (S fuel) s (SetModelId x)
                Hnt Hk I) as (s' & Hd & _). eauto.
  - destruct (decide (P = selectedProvider s)) as [->|Hne].
    + exists s. apply dispatch_setSelectedProvider_same.
    + destruct (dispatch_switch providers modelType fuel s P Hnt Hev Hne)
        as (h & _ & Hd); [|eauto].
      split; right; by apply Hpl.
Qed.

Lemma mount_closed_form fuel p0 rest :
  providers = p0 :: rest →
  never_throws providers modelType →
  plain (name p0) →
  ∃ v, getModel providers modelType (name p0) (JString "")
         (js_head (modelIdList providers (name p0))) = Ok v
    ∧ mount providers modelType (S (S fuel))
      = Settled {| apiKeyMap := {[ name p0 := JString "" ]};
                   preferredModelMap :=
                     {[ name p0 :=
                          js_head (modelIdList providers (name p0)) ]};
                   selectedProvider := name p0; apiKey := JString "";
                   modelId := js_head (modelIdList providers (name p0));
                   model := v |}.
Proof.
  intros Hp Hnt Hpl.
  destruct (providerMap_head_known providers p0 rest Hp) as [e He].
  destruct (getModel_known providers modelType _ _ (JString "")
              (js_head (models p0)) Hnt He) as [v0 Hv0].
  destruct (getModel_known providers modelType _ _ (JString "")
              (js_head (modelIdList providers (name p0))) Hnt He)
    as [v1 Hv1].
  unfold mount. rewrite (initial_state_eq _ _ _ _ Hp), Hv0.
  cbn [mbind outcome_bind]. rewrite settle_S.
  rewrite (hook_commit_ok providers modelType _ _ v0)
    by (try done; intros _; by split; right).
  unfold commit_result, commit_to, changed, restore_id, restore_key.
  cbn [orb apiKeyMap preferredModelMap selectedProvider apiKey modelId].
  rewrite !lookup_empty. cbn [truthy default].
  unfold setPreferredModelMap, setApiKeyMap, setApiKey, setModelId, setModel.
  cbn [apiKeyMap preferredModelMap selectedProvider apiKey modelId model].
  rewrite !insert_empty.
  unfold hook_same_deps at 1.
  cbn [apiKeyMap preferredModelMap selectedProvider apiKey modelId model].
  rewrite !bool_decide_eq_true_2 by done. cbn [andb].
  destruct (decide (js_head (models p0)
                    = js_head (modelIdList providers (name p0))))
    as [Hm|Hm].
  - rewrite bool_decide_eq_true_2 by done. rewrite <- Hm.
    exists v0. split; [by rewrite <- Hm in Hv1|done].
  - rewrite bool_decide_eq_false_2 by done. rewrite settle_S.
    rewrite (hook_commit_stay providers modelType _ _ v1) by done.
    unfold commit_result, commit_to, changed, hook_same_deps.
    cbn [orb apiKeyMap preferredModelMap selectedProvider apiKey modelId].
    rewrite (bool_decide_eq_true_2 (js_head (models p0) ≠ _)) by done.
    rewrite !(bool_decide_eq_false_2 (_ ≠ _)) by (intros Hn; by apply Hn).
    simpl. rewrite !bool_decide_eq_true_2 by done. simpl.
    exists v1. split; [done|].
    unfold setPreferredModelMap, setModel. simpl.
    by rewrite insert_singleton_eq.
Qed.

Lemma dispatch_all_settles fuel evs : ∀ s,
  never_throws providers modelType →
  plain_names providers →
  reachable providers modelType s →
  Forall (known_target providers) evs →
  ∃ s', dispatch_all providers modelType (S (S fuel)) s evs = Settled s'
    ∧ reachable providers modelType s'.
Proof.
  induction evs as [|ev evs IH]; intros s Hnt Hpl Hr Hev; [by exists s|].
  apply Forall_cons in Hev as [Hev Hevs].
  destruct (reachable_inv providers modelType s Hr) as (_ & _ & Hk).
  destruct (dispatch_settles fuel s ev Hnt Hpl Hk Hev) as [s1 Hd].
  destruct (IH s1 Hnt Hpl) as (s' & Hd' & Hr'); [by econstructor 2|done|].
  exists s'. simpl. by rewrite Hd.
Qed.

Lemma dispatch_all_two fuel s e1 e2 s1 s2 :
  dispatch providers modelType fuel s e1 = Settled s1 →
  dispatch providers modelType fuel s1 e2 = Settled s2 →
  dispatch_all providers modelType fuel s [e1; e2] = Settled s2.
Proof. intros H1 H2. simpl. by rewrite H1, H2. Qed.

Lemma edits_commute_aux fuel s v x :
  never_throws providers modelType →
  is_Some (providerMap providers !! selectedProvider s) →
  ∃ s', dispatch_all providers modelType (S fuel) s [SetApiKey v; SetModelId x]
        = Settled s'
    ∧ dispatch_all providers modelType (S fuel) s [SetModelId x; SetApiKey v]
      = Settled s'.
Proof.
  intros Hnt [e He].
  destruct (getModel_known providers modelType _ _ (JString v) (modelId s)
              Hnt He) as [h1 Hh1].
  destruct (getModel_known providers modelType _ _ (apiKey s) (JString x)
              Hnt He) as [h2 Hh2].
  destruct (getModel_known providers modelType _ _ (JString v) (JString x)
              Hnt He) as [h3 Hh3].
  destruct (decide (JString v = apiKey s)) as [Hv|Hv];
    destruct (decide (JString x = modelId s)) as [Hx|Hx].
  - exists s. split; eapply dispatch_all_two;
      first [by apply dispatch_setApiKey_same
            | by apply dispatch_setModelId_same].
  - eexists. split; eapply dispatch_all_two.
    + by apply dispatch_setApiKey_same.
    + by apply (dispatch_setModelId _ _ _ _ _ h2).
    + by apply (dispatch_setModelId _ _ _ _ _ h2).
    + by apply dispatch_setApiKey_same.
  - eexists. split; eapply dispatch_all_two.
    + by apply (dispatch_setApiKey _ _ _ _ _ h1).
    + by apply dispatch_setModelId_same.
    + by apply dispatch_setModelId_same.
    + by apply (dispatch_setApiKey _ _ _ _ _ h1).
  - eexists. split; eapply dispatch_all_two.
    + by apply (dispatch_setApiKey _ _ _ _ _ h1).
    + etrans; [by apply (dispatch_setModelId _ _ _ _ _ h3)|].
      simpl. reflexivity.
    + by apply (dispatch_setModelId _ _ _ _ _ h2).
    + etrans; [by apply (dispatch_setApiKey _ _ _ _ _ h3)|].
      simpl. reflexivity.
Qed.
End MoreHookFacts.

Section MorePickerFacts.
Context {Model : Type}.
Variable providers : list (ProviderDescriptor Model).
Variable modelType : ModelType.

Ltac pick_commit v :=
  rewrite (picker_commit_stay providers modelType _ _ v) by done;
  unfold picker_result, commit_result, commit_to, changed, changed_flag; simpl.
Ltac same_now :=
  unfold picker_same_deps at 1; unfold hook_same_deps; simpl.

Lemma picker_setApiKey fuel ps v h :
  JString v ≠ apiKey (hook ps) →
  getModel providers modelType (selectedProvider (hook ps)) (JString v)
    (modelId (hook ps)) = Ok h →
  picker_dispatch providers modelType (S fuel) ps (Edit (SetApiKey v))
  = Settled
      {| hook := {| apiKeyMap := <[selectedProvider (hook ps) := JString v]>
                                   (apiKeyMap (hook ps));
                    preferredModelMap := preferredModelMap (hook ps);
                    selectedProvider := selectedProvider (hook ps);
                    apiKey := JString v; modelId := modelId (hook ps);
                    model := h |};
         useCustomModelInput := useCustomModelInput ps |}.
Proof.
  intros Hv Hh. destruct ps as [s f]. simpl in *.
  unfold picker_dispatch, after_event. same_now.
  rewrite (bool_decide_eq_false_2 (apiKey s = JString v)) by done.
  rewrite andb_false_r. simpl.
  pick_commit h.
  rewrite (bool_decide_eq_true_2 (apiKey s ≠ JString v)) by done.
  unchanged. simpl. same_now.
  by rewrite !bool_decide_eq_true_2.
Qed.

Lemma picker_select_known fuel ps x h :
  useCustomModelInput ps = false →
  x ∈ modelIdList providers (selectedProvider (hook ps)) →
  JString x ≠ modelId (hook ps) →
  getModel providers modelType (selectedProvider (hook ps))
    (apiKey (hook ps)) (JString x) = Ok h →
  picker_dispatch providers modelType (S fuel) ps (Edit (SetModelId x))
  = Settled
      {| hook := {| apiKeyMap := apiKeyMap (hook ps);
                    preferredModelMap :=
                      <[selectedProvider (hook ps) := JString x]>
                        (preferredModelMap (hook ps));
                    selectedProvider := selectedProvider (hook ps);
                    apiKey := apiKey (hook ps); modelId := JString x;
                    model := h |};
         useCustomModelInput := false |}.
Proof.
  intros Hf Hx Hne Hh. destruct ps as [s f]. simpl in *. subst f.
  unfold picker_dispatch, after_event. same_now.
  rewrite (bool_decide_eq_false_2 (modelId s = JString x)) by done.
  rewrite andb_false_r. simpl.
  pick_commit h.
  rewrite (bool_decide_eq_true_2 (modelId s ≠ JString x)) by done.
  unchanged. simpl.
  rewrite (bool_decide_eq_true_2 (x ∈ _)) by done. simpl. same_now.
  by rewrite !bool_decide_eq_true_2.
Qed.

Lemma picker_type_known fuel ps x :
  never_throws providers modelType →
  is_Some (providerMap providers !! selectedProvider (hook ps)) →
  useCustomModelInput ps = true →
  x ∈ modelIdList providers (selectedProvider (hook ps)) →
  JString x ≠ modelId (hook ps) →
  ∃ h', picker_dispatch providers modelType (S (S (S fuel))) ps
          (Edit (SetModelId x))
        = Settled {| hook := h'; useCustomModelInput := false |}
    ∧ modelId h'
      = js_head (modelIdList providers (selectedProvider (hook ps)))
    ∧ selectedProvider h' = selectedProvider (hook ps)
    ∧ apiKey h' = apiKey (hook ps)
    ∧ apiKeyMap h' = apiKeyMap (hook ps)
    ∧ preferredModelMap h' !! selectedProvider (hook ps)
      = Some (js_head (modelIdList providers (selectedProvider (hook ps)))).
Proof.
  intros Hnt [e He] Hf Hx Hne. destruct ps as [s f]. simpl in *. subst f.
  set (l := modelIdList providers (selectedProvider s)) in *.
  destruct (getModel_known providers modelType _ _ (apiKey s) (JString x)
              Hnt He) as [v1 Hv1].
  destruct (getModel_known providers modelType _ _ (apiKey s) (js_head l)
              Hnt He) as [v2 Hv2].
  assert (l ≠ []) as Hl by (intros Hl; rewrite Hl in Hx; by apply elem_of_nil in Hx).
  unfold picker_dispatch, after_event. same_now.
  rewrite (bool_decide_eq_false_2 (modelId s = JString x)) by done.
  rewrite andb_false_r. simpl.
  pick_commit v1.
  rewrite (bool_decide_eq_true_2 (modelId s ≠ JString x)) by done.
  unchanged. simpl. fold l.
  rewrite (bool_decide_eq_true_2 (x ∈ l)) by done. simpl. same_now.
  rewrite !bool_decide_eq_true_2 by done. simpl.
  pick_commit v1. unchanged. simpl. fold l. same_now.
  rewrite !bool_decide_eq_true_2 by done. simpl.
  destruct (decide (JString x = js_head l)) as [Hh|Hh].
  - rewrite (bool_decide_eq_true_2 (JString x = js_head l)) by done.
    eexists. split; [done|]. simpl.
    split_and!; try done. by rewrite Hh, lookup_insert_eq.
  - rewrite (bool_decide_eq_false_2 (JString x = js_head l)) by done.
    pick_commit v2.
    rewrite (bool_decide_eq_true_2 (JString x ≠ js_head l)) by done.
    unchanged. simpl. fold l. rewrite includes_head.
    rewrite (bool_decide_eq_true_2 (l ≠ [])) by done. simpl.
    unfold picker_same_deps, hook_same_deps. simpl.
    rewrite !bool_decide_eq_true_2 by done. simpl.
    eexists. split; [done|]. simpl.
    split_and!; try done. by rewrite lookup_insert_eq.
Qed.

Local Arguments settle : simpl never.

Ltac step v :=
  rewrite settle_S;
  rewrite (picker_commit_stay providers modelType _ _ v) by done;
  unfold picker_result, commit_result, commit_to, changed, changed_flag;
  simpl.

(** After the restore of a new model id the flag is recomputed; when it
    falls from custom to list the snap effect runs. *)
Lemma picker_switch_tail fuel (mid : State Model) f KM PM mo v4 :
  let P := selectedProvider mid in
  let l := modelIdList providers P in
  getModel providers modelType P (apiKey mid) (modelId mid) = Ok mo →
  getModel providers modelType P (apiKey mid) (js_head l) = Ok v4 →
  ∃ h' f',
    (if picker_same_deps {| hook := mid; useCustomModelInput := f |}
          {| hook := {| apiKeyMap := KM; preferredModelMap := PM;
                        selectedProvider := P; apiKey := apiKey mid;
                        modelId := modelId mid; model := mo |};
             useCustomModelInput := negb (includes l (modelId mid)) |}
     then Settled
            {| hook := {| apiKeyMap := KM; preferredModelMap := PM;
                          selectedProvider := P; apiKey := apiKey mid;
                          modelId := modelId mid; model := mo |};
               useCustomModelInput := negb (includes l (modelId mid)) |}
     else settle (picker_commit providers modelType) picker_same_deps
            (S (S fuel)) (Some {| hook := mid; useCustomModelInput := f |})
            {| hook := {| apiKeyMap := KM; preferredModelMap := PM;
                          selectedProvider := P; apiKey := apiKey mid;
                          modelId := modelId mid; model := mo |};
               useCustomModelInput := negb (includes l (modelId mid)) |})
    = Settled {| hook := h'; useCustomModelInput := f' |}
    ∧ selectedProvider h' = P ∧ apiKey h' = apiKey mid
    ∧ modelId h' =
        (if decide (f = true ∧ includes l (modelId mid) = true)
         then js_head l else modelId mid)
    ∧ f' = negb (includes l (modelId mid)).
Proof.
  intros P l Hmo Hv4. destruct mid as [KM0 PM0 sp k m mo0]. simpl in *.
  subst P. fold l. same_now. rewrite !bool_decide_eq_true_2 by done. simpl.
  destruct (includes l m) eqn:Hinc; destruct f; simpl.
  - try (rewrite decide_True by done).
    step mo. unchanged. simpl. fold l. same_now.
    rewrite !bool_decide_eq_true_2 by done. simpl.
    destruct (decide (m = js_head l)) as [Hh|Hh].
    + rewrite (bool_decide_eq_true_2 (m = js_head l)) by done.
      eexists _, _. split; [done|]. done.
    + rewrite (bool_decide_eq_false_2 (m = js_head l)) by done.
      step v4.
      rewrite (bool_decide_eq_true_2 (m ≠ js_head l)) by done.
      unchanged. simpl. fold l. rewrite includes_head.
      assert (l ≠ []) as Hl.
      { intros Hl. rewrite Hl in Hinc. by destruct m. }
      rewrite (bool_decide_eq_true_2 (l ≠ [])) by done. simpl.
      unfold picker_same_deps, hook_same_deps. simpl.
      rewrite !bool_decide_eq_true_2 by done. simpl.
      eexists _, _. split; [done|]. done.
  - try (rewrite decide_False by (intros (? & _); done)).
    eexists _, _. split; [done|]. done.
  - try (rewrite decide_False by (intros (_ & ?); done)).
    eexists _, _. split; [done|]. done.
  - try (rewrite decide_False by (intros (_ & ?); done)).
    step mo. unchanged. simpl. same_now.
    rewrite !bool_decide_eq_true_2 by done. simpl.
    eexists _, _. split; [done|]. done.
Qed.

Lemma picker_switch fuel ps P :
  never_throws providers modelType →
  is_Some (providerMap providers !! P) →
  safe_target (hook ps) P →
  P ≠ selectedProvider (hook ps) →
  ∃ h' f',
    picker_dispatch providers modelType (S (S (S (S fuel)))) ps
      (Edit (SetSelectedProvider P))
    = Settled {| hook := h'; useCustomModelInput := f' |}
    ∧ selectedProvider h' = P
    ∧ apiKey h' = restore_key (apiKeyMap (hook ps)) P
    ∧ modelId h' =
        (if decide (restore_id providers (preferredModelMap (hook ps)) P
                    ≠ modelId (hook ps)
                    ∧ useCustomModelInput ps = true
                    ∧ includes (modelIdList providers P)
                        (restore_id providers (preferredModelMap (hook ps)) P)
                      = true)
         then js_head (modelIdList providers P)
         else restore_id providers (preferredModelMap (hook ps)) P)
    ∧ f' =
        (if decide (restore_id providers (preferredModelMap (hook ps)) P
                    = modelId (hook ps))
         then useCustomModelInput ps
         else negb (includes (modelIdList providers P)
                     (restore_id providers (preferredModelMap (hook ps)) P))).
Proof.
  intros Hnt [e He] Hsafe Hne. destruct ps as [s f]. simpl in *.
  set (l := modelIdList providers P).
  set (k' := restore_key (apiKeyMap s) P).
  set (m' := restore_id providers (preferredModelMap s) P).
  destruct (getModel_known providers modelType _ _ (apiKey s) (modelId s) Hnt He)
    as [v1 Hv1].
  destruct (getModel_known providers modelType _ _ k' m' Hnt He) as [v2 Hv2].
  destruct (getModel_known providers modelType _ _ k' (js_head l) Hnt He)
    as [v4 Hv4].
  unfold picker_dispatch, after_event. same_now.
  rewrite (bool_decide_eq_false_2 (selectedProvider s = P)) by done. simpl.
  rewrite settle_S.
  rewrite (picker_commit_ok providers modelType _ _ v1) by done.
  unfold picker_result, commit_result, commit_to, changed, changed_flag.
  simpl.
  rewrite (bool_decide_eq_true_2 (selectedProvider s ≠ P)) by done.
  unchanged. simpl. fold k' m'. same_now.
  rewrite (bool_decide_eq_true_2 (P = P)) by done.
  rewrite (bool_decide_eq_true_2 (f = f)) by done. simpl.
  destruct (decide (m' = modelId s)) as [Hm|Hm].
  - rewrite (bool_decide_eq_true_2 (modelId s = m')) by done.
    rewrite andb_true_r.
    rewrite decide_False by (intros (? & _); done).
    destruct (decide (k' = apiKey s)) as [Hk|Hk].
    + rewrite (bool_decide_eq_true_2 (apiKey s = k')) by done.
      eexists _, _. split; [done|]. done.
    + rewrite (bool_decide_eq_false_2 (apiKey s = k')) by done.
      step v2.
      rewrite (bool_decide_eq_true_2 (apiKey s ≠ k')) by done.
      rewrite (bool_decide_eq_false_2 (modelId s ≠ m')) by (intros Hn; by apply Hn).
      unchanged. simpl. same_now.
      rewrite !bool_decide_eq_true_2 by done. simpl.
      eexists _, _. split; [done|]. done.
  - rewrite (bool_decide_eq_false_2 (modelId s = m')) by done.
    rewrite andb_false_r.
    step v2.
    rewrite (bool_decide_eq_true_2 (modelId s ≠ m')) by done.
    rewrite (bool_decide_eq_false_2 (P ≠ P)) by (intros Hn; by apply Hn).
    rewrite (bool_decide_eq_false_2 (f ≠ f)) by (intros Hn; by apply Hn).
    rewrite orb_true_r. simpl. fold l.
    set (mid := setApiKey k' (setModelId m'
                  (setModel v1 (setSelectedProvider P s)))).
    assert (∀ KM PM, ∃ h' f',
      (if picker_same_deps {| hook := mid; useCustomModelInput := f |}
            {| hook := {| apiKeyMap := KM; preferredModelMap := PM;
                          selectedProvider := P; apiKey := k';
                          modelId := m'; model := v2 |};
               useCustomModelInput := negb (includes l m') |}
       then Settled
              {| hook := {| apiKeyMap := KM; preferredModelMap := PM;
                            selectedProvider := P; apiKey := k';
                            modelId := m'; model := v2 |};
                 useCustomModelInput := negb (includes l m') |}
       else settle (picker_commit providers modelType) picker_same_deps
              (S (S fuel)) (Some {| hook := mid; useCustomModelInput := f |})
              {| hook := {| apiKeyMap := KM; preferredModelMap := PM;
                            selectedProvider := P; apiKey := k';
                            modelId := m'; model := v2 |};
                 useCustomModelInput := negb (includes l m') |})
      = Settled {| hook := h'; useCustomModelInput := f' |}
      ∧ selectedProvider h' = P ∧ apiKey h' = k'
      ∧ modelId h' =
          (if decide (m' ≠ modelId s ∧ f = true ∧ includes l m' = true)
           then js_head l else m')
      ∧ f' = negb (includes l m')) as Htail.
    { intros KM PM.
      destruct (picker_switch_tail fuel mid f KM PM v2 v4)
        as (h' & f' & Hd & Hsp & Hk & Hmid & Hf'); [done..|].
      exists h', f'. split; [exact Hd|]. split_and!; try done.
      rewrite Hmid. simpl. fold l.
      destruct (decide (f = true ∧ includes l m' = true)) as [[? ?]|Hn].
      - by rewrite decide_True.
      - rewrite decide_False; [done|]. intros (_ & ? & ?). by apply Hn. }
    destruct (bool_decide (apiKey s ≠ k')); apply Htail.
Qed.

Lemma picker_mount_unique_names fuel p0 rest v :
  providers = p0 :: rest →
  NoDup (name <$> providers) →
  plain (name p0) →
  getModel providers modelType (name p0) (JString "") (js_head (models p0))
  = Ok v →
  picker_mount providers modelType (S (S fuel))
  = Settled
      {| hook := {| apiKeyMap := {[ name p0 := JString "" ]};
                    preferredModelMap :=
                      {[ name p0 := js_head (models p0) ]};
                    selectedProvider := name p0; apiKey := JString "";
                    modelId := js_head (models p0); model := v |};
         useCustomModelInput := bool_decide (models p0 = []) |}.
Proof.
  intros Hp Hnd Hpl Hv.
  pose proof (providerMap_head providers p0 rest Hp Hnd) as Hl.
  assert (modelIdList providers (name p0) = models p0) as Hlist
    by (unfold modelIdList; by rewrite Hl).
  unfold picker_mount. rewrite (initial_state_eq _ _ _ _ Hp), Hv.
  cbn [mbind outcome_bind]. rewrite settle_S.
  rewrite (picker_commit_ok providers modelType _ _ v)
    by (try done; intros _; by split; right).
  unfold picker_result, commit_result, commit_to, changed, changed_flag.
  simpl.
  unfold restore_id, restore_key. rewrite !lookup_empty. simpl.
  rewrite Hlist, includes_head. same_now.
  rewrite !bool_decide_eq_true_2 by done. simpl.
  unfold setPreferredModelMap, setApiKeyMap. simpl. rewrite !insert_empty.
  destruct (decide (models p0 = [])) as [He|He].
  - rewrite (bool_decide_eq_false_2 (models p0 ≠ [])) by (intros Hn; by apply Hn).
    rewrite (bool_decide_eq_true_2 (models p0 = [])) by done. simpl.
    step v. unchanged. simpl.
    unfold picker_same_deps, hook_same_deps. simpl.
    by rewrite !bool_decide_eq_true_2.
  - rewrite (bool_decide_eq_true_2 (models p0 ≠ [])) by done.
    rewrite (bool_decide_eq_false_2 (models p0 = [])) by done. done.
Qed.

Lemma picker_dispatch_settles fuel ps ev :
  never_throws providers modelType →
  plain_names providers →
  is_Some (providerMap providers !! selectedProvider (hook ps)) →
  picker_known_target providers ev →
  ∃ ps', picker_dispatch providers modelType (S (S (S (S fuel)))) ps ev
         = Settled ps'
    ∧ is_Some (providerMap providers !! selectedProvider (hook ps')).
Proof.
  intros Hnt Hpl Hk Hev. pose proof Hk as [e He].
  destruct ev as [[v|x|P]|].
  - destruct (decide (JString v = apiKey (hook ps))) as [Hv|Hv].
    + exists ps. split; [|done]. destruct ps as [s f].
      unfold picker_dispatch, after_event, picker_same_deps, hook_same_deps.
      simpl in *. by rewrite !bool_decide_eq_true_2.
    + destruct (getModel_known providers modelType _ _ (JString v)
                  (modelId (hook ps)) Hnt He) as [h Hh].
      eexists. rewrite (picker_setApiKey _ _ _ h) by done. done.
  - destruct (decide (JString x = modelId (hook ps))) as [Hx|Hx].
    + exists ps. by rewrite picker_setModelId_same.
    + destruct (decide (x ∈ modelIdList providers (selectedProvider (hook ps))))
        as [Hin|Hin].
      * destruct (useCustomModelInput ps) eqn:Hf.
        -- destruct (picker_type_known (S fuel) ps x Hnt Hk Hf Hin Hx)
             as (h' & Hd & _ & Hsp & _).
           eexists. split; [exact Hd|]. simpl. by rewrite Hsp.
        -- destruct (getModel_known providers modelType _ _
                       (apiKey (hook ps)) (JString x) Hnt He) as [h Hh].
           eexists. rewrite (picker_select_known _ _ _ h) by done. done.
      * destruct (picker_setModelId providers modelType (S (S fuel)) ps x
                    Hnt Hk Hin Hx) as (h & Hd & _ & Hsp & _).
        eexists. split; [exact Hd|]. simpl. by rewrite Hsp.
  - destruct (decide (P = selectedProvider (hook ps))) as [->|Hne].
    + exists ps. split; [|done]. destruct ps as [s f].
      unfold picker_dispatch, after_event, picker_same_deps, hook_same_deps.
      simpl. by rewrite !bool_decide_eq_true_2.
    + destruct (picker_switch fuel ps P Hnt Hev) as (h' & f' & Hd & Hsp & _);
        [split; right; by apply Hpl|done|].
      eexists. split; [exact Hd|]. simpl. by rewrite Hsp.
  - destruct (useCustomModelInput ps) eqn:Hf.
    + destruct (picker_toggle_to_list providers modelType (S fuel) ps Hnt Hk Hf)
        as (h' & f' & Hd & _ & Hsp & _).
      eexists. split; [exact Hd|]. simpl. by rewrite Hsp.
    + destruct (getModel_known providers modelType _ _ (apiKey (hook ps))
                  (modelId (hook ps)) Hnt He) as [h Hh].
      eexists. rewrite (picker_toggle_to_custom _ _ _ _ h) by done. done.
Qed.
End MorePickerFacts.

(** * Further properties of the hook *)

(** X1. [providerMap] holds, under a name, the entry of the last descriptor
    of that name in [providers], and nothing under a name that no
    descriptor has. *)
Theorem providerMap_last_wins {Model : Type}
    (providers : list (ProviderDescriptor Model)) (n : string) :
  providerMap providers !! n
  = entry_of <$> last (filter (λ p, name p = n) providers).
Proof.
  unfold providerMap. rewrite foldl_insert_lookup.
  destruct (last _); [done|]. by rewrite lookup_empty.
Qed.

(** X2. With unique provider names, the [modelIdList] returned while a
    listed provider is selected is that provider's own [models]. *)
Theorem modelIdList_of_listed {Model : Type}
    (providers : list (ProviderDescriptor Model))
    (p : ProviderDescriptor Model) :
  NoDup (name <$> providers) →
  p ∈ providers →
  modelIdList providers (name p) = models p.
Proof.
  intros Hnd Hp. unfold modelIdList.
  by rewrite (providerMap_unique providers p Hnd Hp).
Qed.

Lemma modelIdList_of_listed_witness :
  modelIdList Demo.two (name (Demo.desc "Google" ["gemini-2.0-flash"]))
  = models (Demo.desc "Google" ["gemini-2.0-flash"]).
Proof.
  apply (modelIdList_of_listed Demo.two
           (Demo.desc "Google" ["gemini-2.0-flash"])).
  - apply (bool_decide_unpack _). vm_compute. exact I.
  - right. left.
Defined.

(** X3. In the default configuration ([useLocalStorage] off), for every
    non-empty provider list whose first name is no property name of
    [Object.prototype] and whose SDK calls do not throw, the hook settles
    after mounting, even when names repeat: the first name is selected,
    the credential is "", the model id is the first model of the entry
    that [providerMap] holds for that name (the last descriptor of that
    name), both maps hold exactly that provider's entry, and the handle is
    built from these fields. *)
Theorem mount_settles {Model : Type}
    (p0 : ProviderDescriptor Model) (rest : list (ProviderDescriptor Model))
    (modelType : ModelType) (fuel : nat) :
  never_throws (p0 :: rest) modelType →
  plain (name p0) →
  2 ≤ fuel →
  ∃ v, getModel (p0 :: rest) modelType (name p0) (JString "")
         (js_head (modelIdList (p0 :: rest) (name p0))) = Ok v
    ∧ mount (p0 :: rest) modelType fuel
      = Settled {| apiKeyMap := {[ name p0 := JString "" ]};
                   preferredModelMap :=
                     {[ name p0 :=
                          js_head (modelIdList (p0 :: rest) (name p0)) ]};
                   selectedProvider := name p0; apiKey := JString "";
                   modelId := js_head (modelIdList (p0 :: rest) (name p0));
                   model := v |}.
Proof.
  intros Hnt Hpl Hfuel. destruct fuel as [|[|fuel]]; [lia..|].
  by apply (mount_closed_form (p0 :: rest) modelType fuel p0 rest).
Qed.

Lemma mount_settles_witness :
  ∃ v, getModel Demo.twins Language "A" (JString "")
         (js_head (modelIdList Demo.twins "A")) = Ok v
    ∧ mount Demo.twins Language 2
      = Settled {| apiKeyMap := {[ "A" := JString "" ]};
                   preferredModelMap :=
                     {[ "A" := js_head (modelIdList Demo.twins "A") ]};
                   selectedProvider := "A"; apiKey := JString "";
                   modelId := js_head (modelIdList Demo.twins "A");
                   model := v |}.
Proof.
  apply (mount_settles (Demo.desc "A" ["a"]) [Demo.desc "A" ["z"]] Language 2).
  - apply demo_never_throws. repeat constructor; eexists _, _; reflexivity.
  - reflexivity.
  - lia.
Defined.

(** X4. In the default configuration, with SDK calls that do not throw
    and no listed name a property name of [Object.prototype], mounting
    settles exactly when the provider list is non-empty; for the empty
    list the first render throws the TypeError of reading [name] of
    [providers[0]]. *)
Theorem mount_settles_iff_nonempty {Model : Type}
    (providers : list (ProviderDescriptor Model)) (modelType : ModelType)
    (fuel : nat) :
  never_throws providers modelType →
  plain_names providers →
  2 ≤ fuel →
  ((∃ s, mount providers modelType fuel = Settled s) ↔ providers ≠ [])
  ∧ (providers = [] →
     mount providers modelType fuel = Crashed (TypeError "name")).
Proof.
  intros Hnt Hpl Hfuel. destruct fuel as [|[|fuel]]; [lia..|].
  destruct providers as [|p0 rest].
  - split; [|done]. split; [by intros [s Hs]|done].
  - split; [|done]. split; [done|]. intros _.
    destruct (mount_closed_form (p0 :: rest) modelType fuel p0 rest eq_refl Hnt)
      as (v & _ & Hm); [|eauto].
    apply Hpl. by apply (providerMap_head_known _ p0 rest).
Qed.

Lemma mount_settles_iff_nonempty_witness :
  ((∃ s, mount Demo.two Language 2 = Settled s) ↔ Demo.two ≠ [])
  ∧ (Demo.two = [] → mount Demo.two Language 2 = Crashed (TypeError "name")).
Proof.
  apply (mount_settles_iff_nonempty Demo.two Language 2).
  - apply demo_two_never_throws.
  - apply demo_two_plain_names.
  - lia.
Defined.

(** X5. In every state the hook reaches, the selected provider name is a
    key of [providerMap]. *)
Theorem reachable_provider_known {Model : Type}
    (providers : list (ProviderDescriptor Model)) (modelType : ModelType)
    (s : State Model) :
  reachable providers modelType s →
  is_Some (providerMap providers !! selectedProvider s).
Proof. intros Hr. by destruct (reachable_inv providers modelType s Hr) as (_ & _ & ?). Qed.

Lemma reachable_provider_known_witness :
  is_Some (providerMap Demo.two !! selectedProvider Demo.at_google).
Proof.
  apply (reachable_provider_known Demo.two Language Demo.at_google).
  apply (reach_event Demo.two Language 2 Demo.mounted
           (SetSelectedProvider "Google")).
  - apply (reach_mount Demo.two Language 2). vm_compute. reflexivity.
  - vm_compute. reflexivity.
Defined.

(** X6. When no listed name is a property name of [Object.prototype], in
    every state the hook reaches the credential map agrees with the
    current credential: [apiKeyMap[selectedProvider]], read as "" when
    absent, is [apiKey]. *)
Theorem reachable_credential_remembered {Model : Type}
    (providers : list (ProviderDescriptor Model)) (modelType : ModelType)
    (s : State Model) :
  plain_names providers →
  reachable providers modelType s →
  default (JString "") (apiKeyMap s !! selectedProvider s) = apiKey s.
Proof.
  intros Hpl Hr.
  destruct (reachable_inv providers modelType s Hr) as (HK & _ & Hknown).
  destruct (reachable_typed providers modelType s Hpl Hr)
    as (Hk & Hkm & _).
  destruct HK as [HK|HK]; [by right| |].
  - by rewrite HK.
  - specialize (HK JUndefined).
    rewrite restored_own_or_plain in HK by (right; by apply Hpl).
    injection HK as HK. fold (restore_key (apiKeyMap s) (selectedProvider s)) in HK.
    by rewrite <- restore_key_default.
Qed.

Lemma reachable_credential_remembered_witness :
  default (JString "")
    (apiKeyMap Demo.at_google !! selectedProvider Demo.at_google)
  = apiKey Demo.at_google.
Proof.
  apply (reachable_credential_remembered Demo.two Language Demo.at_google).
  - apply demo_two_plain_names.
  - apply (reach_event Demo.two Language 2 Demo.mounted
             (SetSelectedProvider "Google")).
    + apply (reach_mount Demo.two Language 2). vm_compute. reflexivity.
    + vm_compute. reflexivity.
Defined.

(** X7. In every state the hook reaches, [model] is the handle that
    [getModel] builds from the current provider, credential and model id:
    no settled state carries a handle of older fields. *)
Theorem reachable_handle_current {Model : Type}
    (providers : list (ProviderDescriptor Model)) (modelType : ModelType)
    (s : State Model) :
  reachable providers modelType s →
  getModel providers modelType (selectedProvider s) (apiKey s) (modelId s)
  = Ok (model s).
Proof. apply reachable_handle. Qed.

Lemma reachable_handle_current_witness :
  getModel Demo.two Language (selectedProvider Demo.at_google)
    (apiKey Demo.at_google) (modelId Demo.at_google)
  = Ok (model Demo.at_google).
Proof.
  apply (reachable_handle_current Demo.two Language Demo.at_google).
  apply (reach_event Demo.two Language 2 Demo.mounted
           (SetSelectedProvider "Google")).
  - apply (reach_mount Demo.two Language 2). vm_compute. reflexivity.
  - vm_compute. reflexivity.
Defined.

(** X8. Whatever the event and the SDK, a setter call that settles leaves
    the entries of every provider other than the one selected afterwards
    unchanged in both maps. *)
Theorem dispatch_other_providers_untouched {Model : Type}
    (providers : list (ProviderDescriptor Model)) (modelType : ModelType)
    (fuel : nat) (s s' : State Model) (ev : Event) (B : string) :
  dispatch providers modelType fuel s ev = Settled s' →
  B ≠ selectedProvider s' →
  apiKeyMap s' !! B = apiKeyMap s !! B
  ∧ preferredModelMap s' !! B = preferredModelMap s !! B.
Proof.
  unfold dispatch, after_event.
  destruct (hook_same_deps s (apply_event ev s)); [by intros [= <-]|].
  intros Hs HB. apply settle_frame in Hs as [Hsp Hfr].
  destruct (Hfr B) as (H1 & _). rewrite Hsp in HB.
  destruct (H1 HB) as [-> ->]. by destruct ev.
Qed.

Lemma dispatch_other_providers_untouched_witness :
  apiKeyMap Demo.at_google !! "OpenAI" = apiKeyMap Demo.mounted !! "OpenAI"
  ∧ preferredModelMap Demo.at_google !! "OpenAI"
    = preferredModelMap Demo.mounted !! "OpenAI".
Proof.
  apply (dispatch_other_providers_untouched Demo.two Language 2 Demo.mounted
           Demo.at_google (SetSelectedProvider "Google") "OpenAI").
  - vm_compute. reflexivity.
  - discriminate.
Defined.

(** X9. The maps are never pruned: a key present in [apiKeyMap] or in
    [preferredModelMap] before a setter call is present after it. *)
Theorem dispatch_never_prunes {Model : Type}
    (providers : list (ProviderDescriptor Model)) (modelType : ModelType)
    (fuel : nat) (s s' : State Model) (ev : Event) (B : string) :
  dispatch providers modelType fuel s ev = Settled s' →
  (is_Some (apiKeyMap s !! B) → is_Some (apiKeyMap s' !! B))
  ∧ (is_Some (preferredModelMap s !! B) →
     is_Some (preferredModelMap s' !! B)).
Proof.
  unfold dispatch, after_event.
  destruct (hook_same_deps s (apply_event ev s)); [by intros [= <-]|].
  intros Hs. apply settle_frame in Hs as [_ Hfr].
  destruct (Hfr B) as (_ & H2 & H3). by destruct ev.
Qed.

Lemma dispatch_never_prunes_witness :
  (is_Some (apiKeyMap Demo.mounted !! "OpenAI") →
   is_Some (apiKeyMap Demo.at_google !! "OpenAI"))
  ∧ (is_Some (preferredModelMap Demo.mounted !! "OpenAI") →
     is_Some (preferredModelMap Demo.at_google !! "OpenAI")).
Proof.
  apply (dispatch_never_prunes Demo.two Language 2 Demo.mounted
           Demo.at_google (SetSelectedProvider "Google") "OpenAI").
  vm_compute. reflexivity.
Defined.

(** X10. When a setter call settles, the field it sets holds the value
    that was passed: the credential, the model id (verbatim, known or
    not) or the provider name. *)
Theorem setter_value_read_back {Model : Type}
    (providers : list (ProviderDescriptor Model)) (modelType : ModelType)
    (fuel : nat) (s s' : State Model) (ev : Event) :
  dispatch providers modelType fuel s ev = Settled s' →
  match ev with
  | SetApiKey v => apiKey s' = JString v
  | SetModelId x => modelId s' = JString x
  | SetSelectedProvider P => selectedProvider s' = P
  end.
Proof. apply dispatch_sets. Qed.

Lemma setter_value_read_back_witness :
  selectedProvider Demo.at_google = "Google".
Proof.
  apply (setter_value_read_back Demo.two Language 2 Demo.mounted
           Demo.at_google (SetSelectedProvider "Google")).
  vm_compute. reflexivity.
Defined.

(** X11. Setter calls are idempotent: repeating a call that settled
    changes nothing. *)
Theorem dispatch_idempotent {Model : Type}
    (providers : list (ProviderDescriptor Model)) (modelType : ModelType)
    (fuel fuel' : nat) (s s' : State Model) (ev : Event) :
  dispatch providers modelType fuel s ev = Settled s' →
  dispatch providers modelType fuel' s' ev = Settled s'.
Proof.
  intros Hd. apply dispatch_sets in Hd.
  unfold dispatch, after_event.
  by rewrite (proj2 (same_deps_sets ev s') Hd).
Qed.

Lemma dispatch_idempotent_witness :
  dispatch Demo.two Language 2 Demo.at_google (SetSelectedProvider "Google")
  = Settled Demo.at_google.
Proof.
  apply (dispatch_idempotent Demo.two Language 2 2 Demo.mounted
           Demo.at_google (SetSelectedProvider "Google")).
  vm_compute. reflexivity.
Defined.

(** X12. [setApiKey] and [setModelId] commute: with a listed provider
    selected and SDK calls that do not throw, the two orders settle in the
    same state, handle included. *)
Theorem edits_commute {Model : Type}
    (providers : list (ProviderDescriptor Model)) (modelType : ModelType)
    (fuel : nat) (s : State Model) (v x : string) :
  never_throws providers modelType →
  is_Some (providerMap providers !! selectedProvider s) →
  1 ≤ fuel →
  ∃ s', dispatch_all providers modelType fuel s [SetApiKey v; SetModelId x]
        = Settled s'
    ∧ dispatch_all providers modelType fuel s [SetModelId x; SetApiKey v]
      = Settled s'.
Proof.
  intros Hnt Hk Hfuel. destruct fuel as [|fuel]; [lia|].
  by apply edits_commute_aux.
Qed.

Lemma edits_commute_witness :
  ∃ s', dispatch_all Demo.two Language 1 Demo.mounted
          [SetApiKey "sk-1"; SetModelId "o4-mini"]
        = Settled s'
    ∧ dispatch_all Demo.two Language 1 Demo.mounted
        [SetModelId "o4-mini"; SetApiKey "sk-1"]
      = Settled s'.
Proof.
  apply (edits_commute Demo.two Language 1 Demo.mounted "sk-1" "o4-mini").
  - apply demo_two_never_throws.
  - vm_compute. eauto.
  - lia.
Defined.

(** X13. With a non-empty provider list, no listed name a property name
    of [Object.prototype], and SDK calls that do not throw, no sequence of
    setter calls crashes the hook or keeps it re-rendering, as long as
    every [setSelectedProvider] names a listed provider: each call settles
    within two commits. *)
Theorem run_settles {Model : Type}
    (p0 : ProviderDescriptor Model) (rest : list (ProviderDescriptor Model))
    (modelType : ModelType) (fuel : nat) (evs : list Event) :
  never_throws (p0 :: rest) modelType →
  plain_names (p0 :: rest) →
  Forall (known_target (p0 :: rest)) evs →
  2 ≤ fuel →
  ∃ s, run (p0 :: rest) modelType fuel evs = Settled s.
Proof.
  intros Hnt Hpl Hev Hfuel. destruct fuel as [|[|fuel]]; [lia..|].
  destruct (mount_closed_form (p0 :: rest) modelType fuel p0 rest eq_refl Hnt)
    as (v & _ & Hm);
    [apply Hpl; by apply (providerMap_head_known _ p0 rest)|].
  destruct (dispatch_all_settles (p0 :: rest) modelType fuel evs _ Hnt Hpl
              (reach_mount _ _ _ _ Hm) Hev) as (s' & Hd & _).
  exists s'. unfold run. by rewrite Hm.
Qed.

Lemma run_settles_witness :
  ∃ s, run Demo.two Language 2
         [SetApiKey "sk-1"; SetSelectedProvider "Google"; SetModelId "";
          SetSelectedProvider "OpenAI"]
       = Settled s.
Proof.
  apply (run_settles (Demo.desc "OpenAI" ["gpt-4o"; "o4-mini"])
           [Demo.desc "Google" ["gemini-2.0-flash"]] Language 2
           [SetApiKey "sk-1"; SetSelectedProvider "Google"; SetModelId "";
            SetSelectedProvider "OpenAI"]).
  - apply (demo_two_never_throws Language).
  - apply demo_two_plain_names.
  - repeat constructor; vm_compute; eauto.
  - lia.
Defined.

(** X14. When no listed name is a property name of [Object.prototype]:
    from any state the hook reaches, going to another listed provider,
    editing there and coming back restores the credential, and restores
    the model id when it is a non-empty string; an empty or undefined
    model id comes back as the provider's first known model id. *)
Theorem round_trip_from_reachable {Model : Type}
    (providers : list (ProviderDescriptor Model)) (modelType : ModelType)
    (fuel : nat) (s : State Model) (B : string) (edits : list Event) :
  never_throws providers modelType →
  plain_names providers →
  reachable providers modelType s →
  is_Some (providerMap providers !! B) →
  B ≠ selectedProvider s →
  Forall is_edit edits →
  2 ≤ fuel →
  ∃ s', dispatch_all providers modelType fuel s
          (SetSelectedProvider B :: edits
             ++ [SetSelectedProvider (selectedProvider s)])
        = Settled s'
    ∧ selectedProvider s' = selectedProvider s
    ∧ apiKey s' = apiKey s
    ∧ modelId s' =
        if truthy (modelId s) then modelId s
        else js_head (modelIdList providers (selectedProvider s)).
Proof.
  intros Hnt Hpl Hr HB Hne Hed Hfuel. destruct fuel as [|[|fuel]]; [lia..|].
  destruct (reachable_inv providers modelType s Hr) as (HK & HJ & HA).
  destruct (reachable_typed providers modelType s Hpl Hr)
    as ([k Hk] & _ & Hx & _).
  apply (round_trip providers modelType fuel s B edits); try done.
  - split; right; by apply Hpl.
  - unfold key_remembered in HK. rewrite Hk in *.
    by apply remembered_restores_key.
  - destruct (HJ Hx) as [HJ'|HJ'].
    + intros prev. unfold restored, read. by rewrite HJ'.
    + destruct (truthy (modelId s)) eqn:Ht; [done|].
      pose proof (HJ' JUndefined) as Hfix.
      rewrite restored_own_or_plain in Hfix by (right; by apply Hpl).
      injection Hfix as Hfix.
      destruct (truthy (default JUndefined (preferredModelMap s !! _)))
        eqn:Ht'; [congruence|].
      intros prev. rewrite (HJ' prev). by rewrite Hfix.
Qed.

Lemma round_trip_from_reachable_witness :
  ∃ s', dispatch_all Demo.two Language 2 Demo.at_google
          (SetSelectedProvider "OpenAI" :: [SetApiKey "sk-1"]
             ++ [SetSelectedProvider (selectedProvider Demo.at_google)])
        = Settled s'
    ∧ selectedProvider s' = selectedProvider Demo.at_google
    ∧ apiKey s' = apiKey Demo.at_google
    ∧ modelId s' =
        if truthy (modelId Demo.at_google) then modelId Demo.at_google
        else js_head (modelIdList Demo.two (selectedProvider Demo.at_google)).
Proof.
  apply (round_trip_from_reachable Demo.two Language 2 Demo.at_google
           "OpenAI" [SetApiKey "sk-1"]).
  - apply demo_two_never_throws.
  - apply demo_two_plain_names.
  - apply (reach_event Demo.two Language 2 Demo.mounted
             (SetSelectedProvider "Google")).
    + apply (reach_mount Demo.two Language 2). vm_compute. reflexivity.
    + vm_compute. reflexivity.
  - vm_compute. eauto.
  - discriminate.
  - repeat constructor.
  - lia.
Defined.

(** * Further properties of the shell *)

(** X15. In the default configuration, with unique provider names, the
    first of them no property name of [Object.prototype], the shell mounts
    with the hook's mount state, and in list mode exactly when the first
    provider has known models: with none the flag settles at true. *)
Theorem picker_mount_mode {Model : Type}
    (p0 : ProviderDescriptor Model) (rest : list (ProviderDescriptor Model))
    (modelType : ModelType) (fuel : nat) :
  never_throws (p0 :: rest) modelType →
  NoDup (name <$> p0 :: rest) →
  plain (name p0) →
  2 ≤ fuel →
  ∃ s, mount (p0 :: rest) modelType fuel = Settled s
    ∧ picker_mount (p0 :: rest) modelType fuel
      = Settled {| hook := s;
                   useCustomModelInput := bool_decide (models p0 = []) |}.
Proof.
  intros Hnt Hnd Hpl Hfuel. destruct fuel as [|[|fuel]]; [lia..|].
  destruct (providerMap_head_known (p0 :: rest) p0 rest eq_refl) as [e He].
  destruct (getModel_known (p0 :: rest) modelType _ _ (JString "")
              (js_head (models p0)) Hnt He) as [v Hv].
  eexists. split.
  - by apply (mount_unique_names _ _ (S fuel) p0 rest v).
  - by apply (picker_mount_unique_names _ _ fuel p0 rest v).
Qed.

Lemma picker_mount_mode_witness :
  ∃ s, mount Demo.bare Language 2 = Settled s
    ∧ picker_mount Demo.bare Language 2
      = Settled {| hook := s;
                   useCustomModelInput :=
                     bool_decide (models (Demo.desc "Local" []) = []) |}.
Proof.
  apply (picker_mount_mode (Demo.desc "Local" []) [] Language 2).
  - apply demo_never_throws. repeat constructor; eexists _, _; reflexivity.
  - apply (bool_decide_unpack _). vm_compute. exact I.
  - reflexivity.
  - lia.
Defined.

(** X16. In list mode, choosing a known model id other than the current
    one settles with that id, stored for the selected provider, and the
    picker stays in list mode. *)
Theorem picker_select_known_id {Model : Type}
    (providers : list (ProviderDescriptor Model)) (modelType : ModelType)
    (fuel : nat) (ps : PickerState Model) (x : string) :
  never_throws providers modelType →
  is_Some (providerMap providers !! selectedProvider (hook ps)) →
  useCustomModelInput ps = false →
  x ∈ modelIdList providers (selectedProvider (hook ps)) →
  JString x ≠ modelId (hook ps) →
  1 ≤ fuel →
  ∃ ps', picker_dispatch providers modelType fuel ps (Edit (SetModelId x))
         = Settled ps'
    ∧ modelId (hook ps') = JString x
    ∧ useCustomModelInput ps' = false
    ∧ preferredModelMap (hook ps') !! selectedProvider (hook ps)
      = Some (JString x)
    ∧ selectedProvider (hook ps') = selectedProvider (hook ps)
    ∧ apiKey (hook ps') = apiKey (hook ps).
Proof.
  intros Hnt [e He] Hf Hx Hne Hfuel. destruct fuel as [|fuel]; [lia|].
  destruct (getModel_known providers modelType _ _ (apiKey (hook ps))
              (JString x) Hnt He) as [h Hh].
  eexists. rewrite (picker_select_known _ _ _ _ _ h) by done.
  split_and!; try done.
  cbn [hook preferredModelMap]. by rewrite lookup_insert_eq.
Qed.

Lemma picker_select_known_id_witness :
  ∃ ps', picker_dispatch Demo.two Language 1 Demo.picker_mounted
           (Edit (SetModelId "o4-mini"))
         = Settled ps'
    ∧ modelId (hook ps') = JString "o4-mini"
    ∧ useCustomModelInput ps' = false
    ∧ preferredModelMap (hook ps') !! "OpenAI" = Some (JString "o4-mini")
    ∧ selectedProvider (hook ps') = "OpenAI"
    ∧ apiKey (hook ps') = JString "".
Proof.
  apply (picker_select_known_id Demo.two Language 1 Demo.picker_mounted
           "o4-mini").
  - apply demo_two_never_throws.
  - vm_compute. eauto.
  - reflexivity.
  - vm_compute. right. left.
  - discriminate.
  - lia.
Defined.

(** X17. In custom mode, entering a model id that the selected provider
    knows does not keep that id: the flag falls to list mode and the snap
    effect replaces the id by the provider's first known model id, which
    is also what the model-id map then remembers. *)
Theorem picker_typed_known_id_snaps {Model : Type}
    (providers : list (ProviderDescriptor Model)) (modelType : ModelType)
    (fuel : nat) (ps : PickerState Model) (x : string) :
  never_throws providers modelType →
  is_Some (providerMap providers !! selectedProvider (hook ps)) →
  useCustomModelInput ps = true →
  x ∈ modelIdList providers (selectedProvider (hook ps)) →
  JString x ≠ modelId (hook ps) →
  3 ≤ fuel →
  ∃ ps', picker_dispatch providers modelType fuel ps (Edit (SetModelId x))
         = Settled ps'
    ∧ modelId (hook ps')
      = js_head (modelIdList providers (selectedProvider (hook ps)))
    ∧ useCustomModelInput ps' = false
    ∧ preferredModelMap (hook ps') !! selectedProvider (hook ps)
      = Some (js_head (modelIdList providers (selectedProvider (hook ps)))).
Proof.
  intros Hnt Hk Hf Hx Hne Hfuel. destruct fuel as [|[|[|fuel]]]; [lia..|].
  destruct (picker_type_known providers modelType fuel ps x Hnt Hk Hf Hx Hne)
    as (h' & Hd & Hm & _ & _ & _ & Hpm).
  eexists. split; [exact Hd|]. done.
Qed.

Lemma picker_typed_known_id_snaps_witness :
  ∃ ps', picker_dispatch Demo.two Language 3 Demo.picker_custom
           (Edit (SetModelId "o4-mini"))
         = Settled ps'
    ∧ modelId (hook ps') = js_head (modelIdList Demo.two "OpenAI")
    ∧ useCustomModelInput ps' = false
    ∧ preferredModelMap (hook ps') !! "OpenAI"
      = Some (js_head (modelIdList Demo.two "OpenAI")).
Proof.
  apply (picker_typed_known_id_snaps Demo.two Language 3 Demo.picker_custom
           "o4-mini").
  - apply demo_two_never_throws.
  - vm_compute. eauto.
  - reflexivity.
  - vm_compute. right. left.
  - discriminate.
  - lia.
Defined.

(** X18. A provider switch inside the shell, to a listed provider whose
    dictionary reads see own properties only, restores the credential as
    the hook does. The model id is the restored one, except when the
    picker was in custom mode and the restored id differs from the old one
    and is known to the new provider: then it is the new provider's first
    known id. The flag is recomputed from the restored id only when that
    id differs from the old one; otherwise it keeps its value. *)
Theorem picker_switch_restores_or_snaps {Model : Type}
    (providers : list (ProviderDescriptor Model)) (modelType : ModelType)
    (fuel : nat) (ps : PickerState Model) (P : string) :
  never_throws providers modelType →
  is_Some (providerMap providers !! P) →
  safe_target (hook ps) P →
  P ≠ selectedProvider (hook ps) →
  4 ≤ fuel →
  ∃ ps',
    picker_dispatch providers modelType fuel ps (Edit (SetSelectedProvider P))
    = Settled ps'
    ∧ selectedProvider (hook ps') = P
    ∧ apiKey (hook ps') = restore_key (apiKeyMap (hook ps)) P
    ∧ modelId (hook ps') =
        (if decide (restore_id providers (preferredModelMap (hook ps)) P
                    ≠ modelId (hook ps)
                    ∧ useCustomModelInput ps = true
                    ∧ includes (modelIdList providers P)
                        (restore_id providers (preferredModelMap (hook ps)) P)
                      = true)
         then js_head (modelIdList providers P)
         else restore_id providers (preferredModelMap (hook ps)) P)
    ∧ useCustomModelInput ps' =
        (if decide (restore_id providers (preferredModelMap (hook ps)) P
                    = modelId (hook ps))
         then useCustomModelInput ps
         else negb (includes (modelIdList providers P)
                     (restore_id providers (preferredModelMap (hook ps)) P))).
Proof.
  intros Hnt HP Hsafe Hne Hfuel. destruct fuel as [|[|[|[|fuel]]]]; [lia..|].
  destruct (picker_switch providers modelType fuel ps P Hnt HP Hsafe Hne)
    as (h' & f' & Hd & Hrest).
  eexists. split; [exact Hd|]. done.
Qed.

Lemma picker_switch_restores_or_snaps_witness :
  ∃ ps',
    picker_dispatch Demo.two Language 4 Demo.picker_custom
      (Edit (SetSelectedProvider "Google"))
    = Settled ps'
    ∧ selectedProvider (hook ps') = "Google"
    ∧ apiKey (hook ps')
      = restore_key (apiKeyMap (hook Demo.picker_custom)) "Google"
    ∧ modelId (hook ps') =
        (if decide (restore_id Demo.two
                      (preferredModelMap (hook Demo.picker_custom)) "Google"
                    ≠ modelId (hook Demo.picker_custom)
                    ∧ useCustomModelInput Demo.picker_custom = true
                    ∧ includes (modelIdList Demo.two "Google")
                        (restore_id Demo.two
                           (preferredModelMap (hook Demo.picker_custom))
                           "Google")
                      = true)
         then js_head (modelIdList Demo.two "Google")
         else restore_id Demo.two
                (preferredModelMap (hook Demo.picker_custom)) "Google")
    ∧ useCustomModelInput ps' =
        (if decide (restore_id Demo.two
                      (preferredModelMap (hook Demo.picker_custom)) "Google"
                    = modelId (hook Demo.picker_custom))
         then useCustomModelInput Demo.picker_custom
         else negb (includes (modelIdList Demo.two "Google")
                     (restore_id Demo.two
                        (preferredModelMap (hook Demo.picker_custom))
                        "Google"))).
Proof.
  apply (picker_switch_restores_or_snaps Demo.two Language 4
           Demo.picker_custom "Google").
  - apply demo_two_never_throws.
  - vm_compute. eauto.
  - split; right; reflexivity.
  - discriminate.
  - lia.
Defined.

(** X19. The shell's two effects never keep each other running: in the
    default configuration, with unique provider names, none of them a
    property name of [Object.prototype], and SDK calls that do not throw,
    every sequence of edits, switches to listed providers and toggle
    clicks settles, each event within four commits. *)
Theorem picker_run_settles {Model : Type}
    (p0 : ProviderDescriptor Model) (rest : list (ProviderDescriptor Model))
    (modelType : ModelType) (fuel : nat) (evs : list PickerEvent) :
  never_throws (p0 :: rest) modelType →
  plain_names (p0 :: rest) →
  NoDup (name <$> p0 :: rest) →
  Forall (picker_known_target (p0 :: rest)) evs →
  4 ≤ fuel →
  ∃ ps, picker_run (p0 :: rest) modelType fuel evs = Settled ps.
Proof.
  intros Hnt Hpl Hnd Hev Hfuel. destruct fuel as [|[|[|[|fuel]]]]; [lia..|].
  destruct (providerMap_head_known (p0 :: rest) p0 rest eq_refl) as [e He].
  destruct (getModel_known (p0 :: rest) modelType _ _ (JString "")
              (js_head (models p0)) Hnt He) as [v Hv].
  unfold picker_run.
  rewrite (picker_mount_unique_names _ _ (S (S fuel)) p0 rest v)
    by (try done; apply Hpl; eauto).
  match goal with |- ∃ ps, picker_dispatch_all _ _ _ ?ps0 _ = _ =>
    assert (is_Some (providerMap (p0 :: rest)
                       !! selectedProvider (hook ps0))) as Hk by (simpl; eauto);
    generalize dependent ps0 end.
  induction evs as [|ev evs IH]; intros ps0 Hk; [by exists ps0|].
  apply Forall_cons in Hev as [Hev1 Hevs].
  destruct (picker_dispatch_settles (p0 :: rest) modelType fuel ps0 ev
              Hnt Hpl Hk Hev1) as (ps1 & Hd & Hk1).
  destruct (IH Hevs ps1 Hk1) as [ps' Hd'].
  exists ps'. simpl. by rewrite Hd.
Qed.

Lemma picker_run_settles_witness :
  ∃ ps, picker_run Demo.two Language 4
          [Toggle; Edit (SetModelId "o4-mini");
           Edit (SetSelectedProvider "Google"); Toggle;
           Edit (SetModelId "custom"); Edit (SetSelectedProvider "OpenAI")]
        = Settled ps.
Proof.
  apply (picker_run_settles (Demo.desc "OpenAI" ["gpt-4o"; "o4-mini"])
           [Demo.desc "Google" ["gemini-2.0-flash"]] Language 4
           [Toggle; Edit (SetModelId "o4-mini");
            Edit (SetSelectedProvider "Google"); Toggle;
            Edit (SetModelId "custom"); Edit (SetSelectedProvider "OpenAI")]).
  - apply (demo_two_never_throws Language).
  - apply demo_two_plain_names.
  - apply (bool_decide_unpack _). vm_compute. exact I.
  - repeat constructor; vm_compute; eauto.
  - lia.
Defined.

(** X20. A credential edit inside the shell is the hook's edit: the new
    credential is stored for the selected provider, and model id, toggle
    flag and model-id map are left alone. *)
Theorem picker_credential_edit {Model : Type}
    (providers : list (ProviderDescriptor Model)) (modelType : ModelType)
    (fuel : nat) (ps : PickerState Model) (v : string) :
  never_throws providers modelType →
  is_Some (providerMap providers !! selectedProvider (hook ps)) →
  JString v ≠ apiKey (hook ps) →
  1 ≤ fuel →
  ∃ s', dispatch providers modelType fuel (hook ps) (SetApiKey v) = Settled s'
    ∧ picker_dispatch providers modelType fuel ps (Edit (SetApiKey v))
      = Settled {| hook := s';
                   useCustomModelInput := useCustomModelInput ps |}
    ∧ apiKey s' = JString v
    ∧ apiKeyMap s' !! selectedProvider (hook ps) = Some (JString v)
    ∧ modelId s' = modelId (hook ps)
    ∧ preferredModelMap s' = preferredModelMap (hook ps).
Proof.
  intros Hnt [e He] Hv Hfuel. destruct fuel as [|fuel]; [lia|].
  destruct (getModel_known providers modelType _ _ (JString v)
              (modelId (hook ps)) Hnt He) as [h Hh].
  eexists. rewrite (dispatch_setApiKey _ _ _ _ _ h) by done.
  rewrite (picker_setApiKey _ _ _ _ _ h) by done.
  split_and!; try done.
  cbn [apiKeyMap]. by rewrite lookup_insert_eq.
Qed.

Lemma picker_credential_edit_witness :
  ∃ s', dispatch Demo.two Language 1 (hook Demo.picker_custom)
          (SetApiKey "sk-1") = Settled s'
    ∧ picker_dispatch Demo.two Language 1 Demo.picker_custom
        (Edit (SetApiKey "sk-1"))
      = Settled {| hook := s';
                   useCustomModelInput :=
                     useCustomModelInput Demo.picker_custom |}
    ∧ apiKey s' = JString "sk-1"
    ∧ apiKeyMap s' !! selectedProvider (hook Demo.picker_custom)
      = Some (JString "sk-1")
    ∧ modelId s' = modelId (hook Demo.picker_custom)
    ∧ preferredModelMap s' = preferredModelMap (hook Demo.picker_custom).
Proof.
  apply (picker_credential_edit Demo.two Language 1 Demo.picker_custom "sk-1").
  - apply demo_two_never_throws.
  - vm_compute. eauto.
  - discriminate.
  - lia.
Defined.

(** * Provider names that plain objects inherit *)

(** X21. A switch to a listed provider named like one of the methods of
    [Object.prototype] that need a receiver ([valueOf], [hasOwnProperty],
    ...) crashes the hook when one of the two dictionaries has no own
    entry under that name: the read gives the inherited method, the state
    setter takes it for an updater, and the next render throws its
    TypeError. *)
Theorem switch_to_inherited_method_crashes {Model : Type}
    (providers : list (ProviderDescriptor Model)) (modelType : ModelType)
    (s : State Model) (P : string) (f : ProtoFunction) (fuel : nat) :
  never_throws providers modelType →
  is_Some (providerMap providers !! P) →
  P ≠ selectedProvider s →
  inherited P = Some (Member f) →
  (∀ arg, call f arg = Throw TypeErrorToObject) →
  apiKeyMap s !! P = None ∨ preferredModelMap s !! P = None →
  1 ≤ fuel →
  dispatch providers modelType fuel s (SetSelectedProvider P)
  = Crashed TypeErrorToObject.
Proof.
  intros Hnt [e He] Hne Hin Hcall Hnone Hfuel.
  destruct fuel as [|fuel]; [lia|].
  destruct (getModel_known providers modelType _ _ (apiKey s) (modelId s)
              Hnt He) as [h1 Hh1].
  unfold dispatch, after_event, hook_same_deps. simpl.
  rewrite (bool_decide_eq_false_2 (selectedProvider s = P)) by done. simpl.
  rewrite hook_commit_eq. simpl. rewrite Hh1. simpl.
  rewrite (bool_decide_eq_true_2 (selectedProvider s ≠ P)) by done.
  unfold restored, read. rewrite Hin. simpl.
  destruct Hnone as [Hk|Hx].
  - rewrite Hk. simpl. by rewrite Hcall.
  - rewrite Hx. simpl. rewrite Hcall.
    destruct (apiKeyMap s !! P) as [w|]; simpl; [done|]. by rewrite Hcall.
Qed.

Lemma switch_to_inherited_method_crashes_witness :
  dispatch Demo.with_valueOf Language 1 Demo.mounted
    (SetSelectedProvider "valueOf")
  = Crashed TypeErrorToObject.
Proof.
  apply (switch_to_inherited_method_crashes Demo.with_valueOf Language
           Demo.mounted "valueOf" ValueOf 1).
  - apply demo_never_throws. repeat constructor; eexists _, _; reflexivity.
  - vm_compute. eauto.
  - discriminate.
  - reflexivity.
  - reflexivity.
  - left. reflexivity.
  - lia.
Defined.

(** X22. A first switch to a listed provider named "toString" settles,
    with the credential and the model id both "[object Undefined]": what
    [Object.prototype.toString], run as an updater, returns.  Neither the
    provider's first known model id nor the empty credential is used. *)
Theorem switch_to_toString {Model : Type}
    (providers : list (ProviderDescriptor Model)) (modelType : ModelType)
    (s : State Model) (fuel : nat) :
  never_throws providers modelType →
  is_Some (providerMap providers !! "toString") →
  "toString" ≠ selectedProvider s →
  apiKeyMap s !! "toString" = None →
  preferredModelMap s !! "toString" = None →
  2 ≤ fuel →
  ∃ s', dispatch providers modelType fuel s (SetSelectedProvider "toString")
        = Settled s'
    ∧ selectedProvider s' = "toString"
    ∧ apiKey s' = JString "[object Undefined]"
    ∧ modelId s' = JString "[object Undefined]".
Proof.
  intros Hnt [e He] Hne Hk Hx Hfuel. destruct fuel as [|[|fuel]]; [lia..|].
  destruct (getModel_known providers modelType _ _ (apiKey s) (modelId s)
              Hnt He) as [h1 Hh1].
  destruct (getModel_known providers modelType _ _
              (JString "[object Undefined]") (JString "[object Undefined]")
              Hnt He) as [h Hh].
  eexists.
  rewrite (dispatch_switch_to providers modelType fuel s "toString" h1 h
             (JString "[object Undefined]") (JString "[object Undefined]"));
    [done|done|done| | |done].
  - unfold restored, read. by rewrite Hk.
  - unfold restored, read. by rewrite Hx.
Qed.

Lemma switch_to_toString_witness :
  ∃ s', dispatch Demo.with_toString Language 2 Demo.mounted
          (SetSelectedProvider "toString")
        = Settled s'
    ∧ selectedProvider s' = "toString"
    ∧ apiKey s' = JString "[object Undefined]"
    ∧ modelId s' = JString "[object Undefined]".
Proof.
  apply (switch_to_toString Demo.with_toString Language Demo.mounted 2).
  - apply demo_never_throws. repeat constructor; eexists _, _; reflexivity.
  - vm_compute. eauto.
  - discriminate.
  - reflexivity.
  - reflexivity.
  - lia.
Defined.
